(** * Database schema visualisation: catalog extraction and the two renderers

    A shallow embedding of [visualization.py]:
    - [get_postgres_schema_with_relations] reads the PostgreSQL catalog
      through one psycopg2 connection and builds the [schema_info] dict;
    - [generate_erd_graphviz] turns it into a graphviz [Digraph];
    - [generate_erd_networkx] turns it into a networkx [DiGraph], lays it out
      and draws it on a matplotlib figure;
    - the "load schema" button of the Streamlit page stores the result in the
      session state.

    Python exceptions are values of [Exception]; code that talks to the
    outside world runs in a state-and-exception monad [Run], whose state
    survives a raise (as the Python process does).  Dicts keyed by table
    name are [gmap string _]; lists are lists.

    What the libraries do is modelled as far as the program relies on it:
    - the SQL text of each query is its relational reading over the catalog
      views, which stay as they are for the length of a call; whether the
      server accepts a statement depends on the statement alone;
    - graphviz keeps a node's name as given, and splits the name of an edge
      endpoint at ':' into node, port and compass point;
    - networkx keeps a node dict and at most one edge per ordered pair, and
      lists the edges source by source;
    - the arithmetic of the spring layout is a parameter ([LayoutBackend]);
    - of matplotlib only the artists put on the axes are kept
      ([ax.axis('off')] and [plt.tight_layout()] change the framing only). *)

From Stdlib Require Import ZArith Ascii.
From stdpp Require Import base strings list gmap sorting.

Local Open Scope Z_scope.

(** ** Exceptions and the [Run] monad *)

Inductive Exception :=
| OperationalError (msg : string)   (* psycopg2.connect refused *)
| DatabaseError (msg : string)      (* cursor.execute failed *)
| KeyError (key : string).          (* d[k] with k absent *)

Definition Run (S A : Type) : Type := S → S * (Exception + A).

Definition run_ret {S A} (a : A) : Run S A := λ s, (s, inr a).

Definition run_bind {S A B} (k : A → Run S B) (m : Run S A) : Run S B :=
  λ s, match m s with
       | (s', inr a) => k a s'
       | (s', inl e) => (s', inl e)
       end.

Definition raise {S A} (e : Exception) : Run S A := λ s, (s, inl e).

Definition modify {S} (f : S → S) : Run S unit := λ s, (f s, inr tt).

#[global] Instance Run_ret {S} : MRet (Run S) := @run_ret S.
#[global] Instance Run_bind {S} : MBind (Run S) := @run_bind S.

(** [for x in l: acc = body x acc], stopping at the first raise. *)
Fixpoint for_each {S A B} (l : list A) (body : A → B → Run S B) (acc : B)
  : Run S B :=
  match l with
  | [] => mret acc
  | x :: l' => acc' ← body x acc; for_each l' body acc'
  end.

(** [d[k]] on a dict: [KeyError] when the key is absent. *)
Definition getitem {V} (d : gmap string V) (k : string) : Exception + V :=
  match d !! k with
  | Some v => inr v
  | None => inl (KeyError k)
  end.

(** ** The PostgreSQL catalog

    The views the five queries read, each with the columns the queries
    mention.  A view is a bag of rows. *)

Record tables_row := {
  t_table_schema : string;
  t_table_name : string;
  t_table_type : string }.

Record columns_row := {
  c_table_schema : string;
  c_table_name : string;
  c_column_name : string;
  c_data_type : string;
  c_is_nullable : string;
  c_ordinal_position : Z }.

Record table_constraints_row := {
  tc_constraint_name : string;
  tc_table_schema : string;
  tc_table_name : string;
  tc_constraint_type : string }.

Record constraint_column_usage_row := {
  ccu_table_schema : string;
  ccu_table_name : string;
  ccu_column_name : string;
  ccu_constraint_name : string }.

Record key_column_usage_row := {
  kcu_constraint_name : string;
  kcu_table_schema : string;
  kcu_table_name : string;
  kcu_column_name : string }.

Record pg_indexes_row := {
  ix_schemaname : string;
  ix_tablename : string;
  ix_indexname : string;
  ix_indexdef : string }.

Record Catalog := {
  information_schema_tables : list tables_row;
  information_schema_columns : list columns_row;
  information_schema_table_constraints : list table_constraints_row;
  information_schema_constraint_column_usage : list constraint_column_usage_row;
  information_schema_key_column_usage : list key_column_usage_row;
  pg_indexes : list pg_indexes_row }.

(** ** Relational operators *)

Definition cross_join {A B} (l : list A) (r : list B) : list (A * B) :=
  a ← l; b ← r; [(a, b)].

(** [l JOIN r ON on]: the pairs of the product that satisfy [on]. *)
Definition inner_join {A B} (on : A * B → Prop) `{∀ j, Decision (on j)}
    (l : list A) (r : list B) : list (A * B) :=
  filter on (cross_join l r).

(** [ORDER BY]: the rows sorted by a total preorder.  SQL leaves the order of
    ties open; the merge sort fixes one of the permitted orders. *)
Definition order_by {A} (le : A → A → Prop) `{∀ a b, Decision (le a b)}
    (l : list A) : list A := merge_sort le l.

(** Identifiers compare bytewise (the catalog's name columns use the "C"
    collation). *)
Definition tables_le (a b : tables_row) : Prop :=
  match String.compare (t_table_schema a) (t_table_schema b) with
  | Lt => True
  | Eq => String.leb (t_table_name a) (t_table_name b) = true
  | Gt => False
  end.

#[global] Instance tables_le_dec a b : Decision (tables_le a b).
Proof. unfold tables_le. destruct (String.compare _ _); apply _. Defined.

Definition position_le (a b : columns_row) : Prop :=
  c_ordinal_position a ≤ c_ordinal_position b.

#[global] Instance position_le_dec a b : Decision (position_le a b).
Proof. unfold position_le. apply _. Defined.

(** ** The five catalog queries

    A joined row is a nested pair: [j.1] is the left operand's row and [j.2]
    the right one's, so after two joins [j.1.1] is [tc]. *)

Definition system_schemas : list string :=
  ["information_schema"; "pg_catalog"; "pg_toast"].

(** SELECT table_schema, table_name FROM information_schema.tables
    WHERE table_schema NOT IN (...) AND table_type = 'BASE TABLE'
    ORDER BY table_schema, table_name *)
Definition select_tables (cat : Catalog) : list (string * string) :=
  (λ r, (t_table_schema r, t_table_name r)) <$>
  order_by tables_le
    (filter (λ r, (t_table_schema r ∉ system_schemas)
                  ∧ t_table_type r = "BASE TABLE")
            (information_schema_tables cat)).

(** SELECT column_name, data_type, is_nullable, ordinal_position
    FROM information_schema.columns
    WHERE table_schema = %s AND table_name = %s ORDER BY ordinal_position *)
Definition select_columns (cat : Catalog) (schema table : string)
  : list (string * string * string * Z) :=
  (λ c, (c_column_name c, c_data_type c, c_is_nullable c, c_ordinal_position c)) <$>
  order_by position_le
    (filter (λ c, c_table_schema c = schema ∧ c_table_name c = table)
            (information_schema_columns cat)).

(** SELECT c.column_name
    FROM table_constraints tc
    JOIN constraint_column_usage ccu ON tc.constraint_name = ccu.constraint_name
    JOIN columns c ON c.table_schema = tc.table_schema
                  AND c.table_name = tc.table_name
                  AND c.column_name = ccu.column_name
    WHERE tc.constraint_type = 'PRIMARY KEY'
      AND tc.table_schema = %s AND tc.table_name = %s *)
Definition select_primary_keys (cat : Catalog) (schema table : string)
  : list string :=
  (λ j, c_column_name j.2) <$>
  filter (λ j, tc_constraint_type j.1.1 = "PRIMARY KEY"
               ∧ tc_table_schema j.1.1 = schema
               ∧ tc_table_name j.1.1 = table)
    (inner_join (λ j, c_table_schema j.2 = tc_table_schema j.1.1
                      ∧ c_table_name j.2 = tc_table_name j.1.1
                      ∧ c_column_name j.2 = ccu_column_name j.1.2)
       (inner_join (λ j, tc_constraint_name j.1 = ccu_constraint_name j.2)
          (information_schema_table_constraints cat)
          (information_schema_constraint_column_usage cat))
       (information_schema_columns cat)).

(** SELECT kcu.column_name, ccu.table_schema, ccu.table_name, ccu.column_name
    FROM table_constraints tc
    JOIN key_column_usage kcu ON tc.constraint_name = kcu.constraint_name
                             AND tc.table_schema = kcu.table_schema
    JOIN constraint_column_usage ccu ON ccu.constraint_name = tc.constraint_name
    WHERE tc.constraint_type = 'FOREIGN KEY'
      AND tc.table_schema = %s AND tc.table_name = %s *)
Definition select_foreign_keys (cat : Catalog) (schema table : string)
  : list (string * string * string * string) :=
  (λ j, (kcu_column_name j.1.2, ccu_table_schema j.2,
         ccu_table_name j.2, ccu_column_name j.2)) <$>
  filter (λ j, tc_constraint_type j.1.1 = "FOREIGN KEY"
               ∧ tc_table_schema j.1.1 = schema
               ∧ tc_table_name j.1.1 = table)
    (inner_join (λ j, ccu_constraint_name j.2 = tc_constraint_name j.1.1)
       (inner_join (λ j, tc_constraint_name j.1 = kcu_constraint_name j.2
                         ∧ tc_table_schema j.1 = kcu_table_schema j.2)
          (information_schema_table_constraints cat)
          (information_schema_key_column_usage cat))
       (information_schema_constraint_column_usage cat)).

(** SELECT indexname, indexdef FROM pg_indexes
    WHERE schemaname = %s AND tablename = %s *)
Definition select_indexes (cat : Catalog) (schema table : string)
  : list (string * string) :=
  (λ i, (ix_indexname i, ix_indexdef i)) <$>
  filter (λ i, ix_schemaname i = schema ∧ ix_tablename i = table)
         (pg_indexes cat).

(** ** The database server and the psycopg2 connection

    The server holds the catalog, which the five SELECTs read and nothing
    changes while a call runs.  It may refuse a connection and it may reject
    a statement (missing privilege, statement timeout, lost link); when it
    accepts one, the rows are those of the query over the catalog. *)

Record ConnParams := {
  host : string;
  port : Z;
  database : string;
  user : string;
  password : string }.

Inductive Statement : Type → Type :=
| SelectTables : Statement (list (string * string))
| SelectColumns (schema table : string)
    : Statement (list (string * string * string * Z))
| SelectPrimaryKeys (schema table : string) : Statement (list string)
| SelectForeignKeys (schema table : string)
    : Statement (list (string * string * string * string))
| SelectIndexes (schema table : string) : Statement (list (string * string)).

Definition fetchall {A} (cat : Catalog) (st : Statement A) : A :=
  match st in Statement T return T with
  | SelectTables => select_tables cat
  | SelectColumns schema table => select_columns cat schema table
  | SelectPrimaryKeys schema table => select_primary_keys cat schema table
  | SelectForeignKeys schema table => select_foreign_keys cat schema table
  | SelectIndexes schema table => select_indexes cat schema table
  end.

Record Server := {
  srv_catalog : Catalog;
  srv_refuses : ConnParams → option Exception;
  srv_rejects : ∀ A, Statement A → option Exception }.

(** The state of the process as far as the database is concerned: the server
    it talks to and one flag for every connection it ever opened ([true]
    while the connection is open).  A connection handle is its index. *)
Record World := {
  server : Server;
  connections : list bool }.

Definition psycopg2_connect (p : ConnParams) : Run World nat :=
  λ w, match srv_refuses (server w) p with
       | Some e => (w, inl e)
       | None => ({| server := server w;
                     connections := connections w ++ [true] |},
                  inr (length (connections w)))
       end.

Definition conn_cursor (conn : nat) : Run World nat := mret conn.

Definition conn_close (conn : nat) : Run World unit :=
  modify (λ w, {| server := server w;
                  connections := <[conn := false]> (connections w) |}).

(** [cursor.execute(st); cursor.fetchall()] *)
Definition execute_fetchall {A} (cursor : nat) (st : Statement A)
  : Run World A :=
  λ w, match srv_rejects (server w) A st with
       | Some e => (w, inl e)
       | None => (w, inr (fetchall (srv_catalog (server w)) st))
       end.

(** ** The schema model: the [schema_info] dict *)

Record ColumnInfo := {
  col_name : string;
  col_type : string;
  col_nullable : string;
  col_position : Z }.

Record ForeignKey := {
  from_table : string;
  from_column : string;
  to_table : string;
  to_column : string }.

Record IndexInfo := {
  idx_name : string;
  idx_definition : string }.

Record SchemaInfo := {
  tables : list string;
  columns : gmap string (list ColumnInfo);
  primary_keys : gmap string (list string);
  foreign_keys : list ForeignKey;
  indexes : gmap string (list IndexInfo) }.

Definition empty_schema_info : SchemaInfo :=
  {| tables := []; columns := ∅; primary_keys := ∅;
     foreign_keys := []; indexes := ∅ |}.

(** ** [get_postgres_schema_with_relations] *)

(** The in-place updates of the dict, one per key. *)
Definition tables_append (t : string) (si : SchemaInfo) : SchemaInfo :=
  {| tables := tables si ++ [t]; columns := columns si;
     primary_keys := primary_keys si; foreign_keys := foreign_keys si;
     indexes := indexes si |}.

Definition columns_setitem (t : string) (v : list ColumnInfo)
    (si : SchemaInfo) : SchemaInfo :=
  {| tables := tables si; columns := <[t := v]> (columns si);
     primary_keys := primary_keys si; foreign_keys := foreign_keys si;
     indexes := indexes si |}.

Definition primary_keys_setitem (t : string) (v : list string)
    (si : SchemaInfo) : SchemaInfo :=
  {| tables := tables si; columns := columns si;
     primary_keys := <[t := v]> (primary_keys si);
     foreign_keys := foreign_keys si; indexes := indexes si |}.

Definition foreign_keys_extend (v : list ForeignKey) (si : SchemaInfo)
  : SchemaInfo :=
  {| tables := tables si; columns := columns si;
     primary_keys := primary_keys si; foreign_keys := foreign_keys si ++ v;
     indexes := indexes si |}.

Definition indexes_setitem (t : string) (v : list IndexInfo)
    (si : SchemaInfo) : SchemaInfo :=
  {| tables := tables si; columns := columns si;
     primary_keys := primary_keys si; foreign_keys := foreign_keys si;
     indexes := <[t := v]> (indexes si) |}.

Definition column_of_row (col : string * string * string * Z) : ColumnInfo :=
  {| col_name := col.1.1.1; col_type := col.1.1.2;
     col_nullable := col.1.2; col_position := col.2 |}.

Definition foreign_key_of_row (schema table : string)
    (fk : string * string * string * string) : ForeignKey :=
  {| from_table := schema +:+ "." +:+ table;
     from_column := fk.1.1.1;
     to_table := fk.1.1.2 +:+ "." +:+ fk.1.2;
     to_column := fk.2 |}.

Definition index_of_row (idx : string * string) : IndexInfo :=
  {| idx_name := idx.1; idx_definition := idx.2 |}.

(** One round of [for schema, table in tables]. *)
Definition extract_table (cursor : nat) (row : string * string)
    (schema_info : SchemaInfo) : Run World SchemaInfo :=
  let schema := row.1 in
  let table := row.2 in
  let table_full := schema +:+ "." +:+ table in
  let schema_info := tables_append table_full schema_info in
  cols ← execute_fetchall cursor (SelectColumns schema table);
  let schema_info :=
    columns_setitem table_full (column_of_row <$> cols) schema_info in
  pk_columns ← execute_fetchall cursor (SelectPrimaryKeys schema table);
  let schema_info :=
    primary_keys_setitem table_full pk_columns schema_info in
  fks ← execute_fetchall cursor (SelectForeignKeys schema table);
  let schema_info :=
    foreign_keys_extend (foreign_key_of_row schema table <$> fks) schema_info in
  idxs ← execute_fetchall cursor (SelectIndexes schema table);
  let schema_info :=
    indexes_setitem table_full (index_of_row <$> idxs) schema_info in
  mret schema_info.

Definition get_postgres_schema_with_relations (p : ConnParams)
  : Run World SchemaInfo :=
  conn ← psycopg2_connect p;
  cursor ← conn_cursor conn;
  tbls ← execute_fetchall cursor SelectTables;
  schema_info ← for_each tbls (extract_table cursor) empty_schema_info;
  _ ← conn_close conn;
  mret schema_info.

(** ** [generate_erd_graphviz]

    A graphviz [Digraph] object is a comment, the graph attributes and a
    body of statements; [dot.node] and [dot.edge] append one statement each
    and look nothing up.  [dot.node] takes the name whole.  [dot.edge] reads
    each of its two names as [node[:port[:compass]]]: the part before the
    first ':' is the node, and what follows, when there is any, is the port
    up to the next ':' and then the compass point. *)

Record DotEndpoint := {
  ep_node : string;
  ep_port : option string;
  ep_compass : option string }.

(** [s.partition(':')]: the text before the first ':' and the text after
    it (both of them, without the ':'); the whole and [""] when there is
    none. *)
Fixpoint partition_colon (s : string) : string * string :=
  match s with
  | EmptyString => (EmptyString, EmptyString)
  | String c s' =>
      if Ascii.eqb c ":"%char then (EmptyString, s')
      else (String c (partition_colon s').1, (partition_colon s').2)
  end.

Definition quote_edge (identifier : string) : DotEndpoint :=
  let node := (partition_colon identifier).1 in
  let rest := (partition_colon identifier).2 in
  match rest with
  | EmptyString => {| ep_node := node; ep_port := None; ep_compass := None |}
  | String _ _ =>
      let port := (partition_colon rest).1 in
      let compass := (partition_colon rest).2 in
      {| ep_node := node;
         ep_port := Some port;
         ep_compass := match compass with
                       | EmptyString => None
                       | String _ _ => Some compass
                       end |}
  end.

Inductive DotStatement :=
| DotNode (node_name label shape : string)
| DotEdge (tail head : DotEndpoint) (label color fontsize : string).

Record Digraph := {
  dot_comment : string;
  dot_graph_attr : list (string * string);
  dot_body : list DotStatement }.

Definition Digraph_new (comment : string) : Digraph :=
  {| dot_comment := comment; dot_graph_attr := []; dot_body := [] |}.

Definition dot_attr (kvs : list (string * string)) : Run Digraph unit :=
  modify (λ d, {| dot_comment := dot_comment d;
                  dot_graph_attr := dot_graph_attr d ++ kvs;
                  dot_body := dot_body d |}).

Definition dot_append (st : DotStatement) : Run Digraph unit :=
  modify (λ d, {| dot_comment := dot_comment d;
                  dot_graph_attr := dot_graph_attr d;
                  dot_body := dot_body d ++ [st] |}).

Definition dot_node (node_name label shape : string) : Run Digraph unit :=
  dot_append (DotNode node_name label shape).

Definition dot_edge (tail_name head_name label color fontsize : string)
  : Run Digraph unit :=
  dot_append (DotEdge (quote_edge tail_name) (quote_edge head_name)
                      label color fontsize).

(** [table in primary_keys and col['name'] in primary_keys[table]] *)
Definition is_primary_key (schema_info : SchemaInfo) (table : string)
    (col : ColumnInfo) : bool :=
  match primary_keys schema_info !! table with
  | Some pks => bool_decide (col_name col ∈ pks)
  | None => false
  end.

(** One round of [for col in schema_info['columns'][table]]. *)
Definition label_add_column (schema_info : SchemaInfo) (table : string)
    (label : string) (col : ColumnInfo) : string :=
  let col_name' :=
    if is_primary_key schema_info table col
    then "🔑 " +:+ col_name col else col_name col in
  let bgcolor :=
    if is_primary_key schema_info table col then "lightgreen" else "white" in
  label +:+ "<TR><TD BGCOLOR='" +:+ bgcolor +:+ "'>" +:+ col_name'
        +:+ "</TD><TD>" +:+ col_type col +:+ "</TD></TR>".

Definition table_label (schema_info : SchemaInfo) (table : string)
    (cols : list ColumnInfo) : string :=
  let label := "<<TABLE BORDER='1' CELLBORDER='1' CELLSPACING='0'>" in
  let label :=
    label +:+ "<TR><TD COLSPAN='2' BGCOLOR='lightblue'><B>" +:+ table
          +:+ "</B></TD></TR>" in
  let label := foldl (label_add_column schema_info table) label cols in
  label +:+ "</TABLE>>".

Definition fk_label (fk : ForeignKey) : string :=
  from_column fk +:+ " → " +:+ to_column fk.

Definition graphviz_add_table (schema_info : SchemaInfo) (table : string)
    (_ : unit) : Run Digraph unit :=
  match getitem (columns schema_info) table with
  | inl e => raise e
  | inr cols => dot_node table (table_label schema_info table cols) "plaintext"
  end.

Definition graphviz_add_fk (fk : ForeignKey) (_ : unit) : Run Digraph unit :=
  dot_edge (from_table fk) (to_table fk) (fk_label fk) "blue" "10".

Definition generate_erd_graphviz (schema_info : SchemaInfo)
  : Exception + Digraph :=
  let script : Run Digraph unit :=
    _ ← dot_attr [("rankdir", "LR"); ("size", "12,8")];
    _ ← for_each (tables schema_info) (graphviz_add_table schema_info) tt;
    for_each (foreign_keys schema_info) graphviz_add_fk tt in
  match script (Digraph_new "Database Schema") with
  | (dot, inr _) => inr dot
  | (_, inl e) => inl e
  end.

(** What the diagram shows.  In the DOT language a node exists as soon as a
    node statement or an edge endpoint names it; only a node statement gives
    it a label. *)
Definition dot_edges (d : Digraph) : list DotStatement :=
  dot_body d ≫= λ st, match st with
                       | DotEdge _ _ _ _ _ => [st]
                       | DotNode _ _ _ => []
                       end.

Definition dot_statement_names (st : DotStatement) : list string :=
  match st with
  | DotNode n _ _ => [n]
  | DotEdge t h _ _ _ => [ep_node t; ep_node h]
  end.

Definition dot_nodes (d : Digraph) : list string :=
  remove_dups (dot_body d ≫= dot_statement_names).

Definition dot_node_labels (d : Digraph) (n : string) : list string :=
  dot_body d ≫= λ st, match st with
                       | DotNode n' label _ => if decide (n' = n) then [label] else []
                       | DotEdge _ _ _ _ _ => []
                       end.

(** ** networkx, numpy and matplotlib, as far as [generate_erd_networkx]
    uses them *)

(** A Python dict as the list of its items in insertion order: assigning to
    a present key keeps its place. *)
Fixpoint dict_setitem {K V} `{EqDecision K} (k : K) (v : V)
    (d : list (K * V)) : list (K * V) :=
  match d with
  | [] => [(k, v)]
  | (k', v') :: d' =>
      if decide (k' = k) then (k, v) :: d' else (k', v') :: dict_setitem k v d'
  end.

Fixpoint dict_get {K V} `{EqDecision K} (k : K) (d : list (K * V))
  : option V :=
  match d with
  | [] => None
  | (k', v') :: d' => if decide (k' = k) then Some v' else dict_get k d'
  end.

(** A [DiGraph]: the node dict (a node's attributes are its ['size'], when
    it has one) and the edges, at most one per ordered pair of nodes, in the
    order they were added. *)
Record DiGraph := {
  g_node : list (string * option Z);
  g_edges : list (string * string) }.

Definition DiGraph_new : DiGraph := {| g_node := []; g_edges := [] |}.

(** [G.add_node(n, size=size)] *)
Definition add_node (n : string) (size : Z) (G : DiGraph) : DiGraph :=
  {| g_node := dict_setitem n (Some size) (g_node G);
     g_edges := g_edges G |}.

(** A node an edge mentions first is created without attributes. *)
Definition touch_node (n : string) (nodes : list (string * option Z))
  : list (string * option Z) :=
  match dict_get n nodes with
  | Some _ => nodes
  | None => nodes ++ [(n, None)]
  end.

(** [G.add_edge(u, v)] *)
Definition add_edge (u v : string) (G : DiGraph) : DiGraph :=
  {| g_node := touch_node v (touch_node u (g_node G));
     g_edges := if decide ((u, v) ∈ g_edges G) then g_edges G
                else g_edges G ++ [(u, v)] |}.

(** [G.edges]: the edges that leave each node, node by node in the order of
    [G.nodes]; those of one node in the order they were added. *)
Definition graph_edges (G : DiGraph) : list (string * string) :=
  g_node G ≫= λ nd, filter (λ e, e.1 = nd.1) (g_edges G).

(** The numeric side of the layout is left open: coordinates, the state of
    a random generator, the generator seeded with an integer, and the
    Fruchterman-Reingold iteration, which reads the graph, [k], the number
    of iterations and a generator, and yields a position for any node name
    together with the generator it leaves behind. *)
Class LayoutBackend := {
  Coord : Type;
  RandomState : Type;
  RandomState_seed : Z → RandomState;
  fruchterman_reingold :
    DiGraph → Z → nat → RandomState → (string → Coord) * RandomState }.

(** The interpreter state the renderer touches: numpy's global generator and
    the number of figures pyplot has created. *)
Record PyState `{LayoutBackend} := {
  np_random : RandomState;
  plt_fignum : nat }.

Definition lift {S A} (r : Exception + A) : Run S A := λ s, (s, r).

(** The dict a layout returns: one position per node of [G]. *)
Definition node_positions `{LayoutBackend} (at_ : string → Coord)
    (G : DiGraph) : gmap string Coord :=
  list_to_map ((λ nd, (nd.1, at_ nd.1)) <$> g_node G).

(** [nx.spring_layout(G, k=k, iterations=iterations, seed=seed)].  An
    integer seed makes a generator of its own; without a seed numpy's global
    generator is used and advanced. *)
Definition spring_layout `{LayoutBackend} (G : DiGraph) (k : Z)
    (iterations : nat) (seed : option Z) : Run PyState (gmap string Coord) :=
  λ s,
    let rng := match seed with
               | Some n => RandomState_seed n
               | None => np_random s
               end in
    let out := fruchterman_reingold G k iterations rng in
    let pos := node_positions out.1 G in
    let s' := match seed with
              | Some _ => s
              | None => {| np_random := out.2; plt_fignum := plt_fignum s |}
              end in
    (s', inr pos).

(** [plt.subplots(figsize=...)]: a new figure, numbered by pyplot. *)
Definition plt_subplots `{LayoutBackend} : Run PyState nat :=
  λ s, ({| np_random := np_random s; plt_fignum := S (plt_fignum s) |},
        inr (S (plt_fignum s))).

Definition pos_getitem `{LayoutBackend} (pos : gmap string Coord)
    (n : string) : Run PyState Coord :=
  lift (getitem pos n).

(** The artists of the figure.  Node markers carry the node they stand for,
    in the order of [G.nodes]. *)
Record Figure `{LayoutBackend} := {
  fig_number : nat;
  fig_figsize : Z * Z;
  fig_markers : list (string * Coord * Z);
  fig_arrows : list (string * string * Coord * Coord);
  fig_node_labels : list (string * Coord);
  fig_edge_labels : list (string * string * string * Coord * Coord);
  fig_title : string }.

Definition draw_networkx_nodes `{LayoutBackend} (G : DiGraph)
    (pos : gmap string Coord) (node_size : list Z)
  : Run PyState (list (string * Coord * Z)) :=
  mapM (λ ns, xy ← pos_getitem pos ns.1.1; mret (ns.1.1, xy, ns.2))
       (zip (g_node G) node_size).

Definition draw_networkx_edges `{LayoutBackend} (G : DiGraph)
    (pos : gmap string Coord)
  : Run PyState (list (string * string * Coord * Coord)) :=
  mapM (λ e, src ← pos_getitem pos e.1;
             dst ← pos_getitem pos e.2;
             mret (e.1, e.2, src, dst))
       (graph_edges G).

Definition draw_networkx_labels `{LayoutBackend} (G : DiGraph)
    (pos : gmap string Coord) : Run PyState (list (string * Coord)) :=
  mapM (λ nd, xy ← pos_getitem pos nd.1; mret (nd.1, xy)) (g_node G).

Definition draw_networkx_edge_labels `{LayoutBackend}
    (pos : gmap string Coord) (edge_labels : list (string * string * string))
  : Run PyState (list (string * string * string * Coord * Coord)) :=
  mapM (λ el, src ← pos_getitem pos el.1.1;
              dst ← pos_getitem pos el.1.2;
              mret (el.1.1, el.1.2, el.2, src, dst))
       edge_labels.

(** ** [generate_erd_networkx] *)

Definition networkx_add_table `{LayoutBackend} (schema_info : SchemaInfo)
    (table : string) (G : DiGraph) : Run PyState DiGraph :=
  let node_size :=
    Z.of_nat (length (default [] (columns schema_info !! table))) * 300 in
  cols ← lift (getitem (columns schema_info) table);
  mret (add_node table (Z.of_nat (length cols) * 100) G).

Definition networkx_add_fk
    (acc : DiGraph * list (string * string * string)) (fk : ForeignKey)
  : DiGraph * list (string * string * string) :=
  let from_table' := from_table fk in
  let to_table' := to_table fk in
  (add_edge from_table' to_table' acc.1,
   dict_setitem (from_table', to_table') (fk_label fk) acc.2).

Definition generate_erd_networkx `{LayoutBackend} (schema_info : SchemaInfo)
  : Run PyState Figure :=
  G ← for_each (tables schema_info) (networkx_add_table schema_info)
               DiGraph_new;
  let G_edge_labels :=
    foldl networkx_add_fk (G, []) (foreign_keys schema_info) in
  let G := G_edge_labels.1 in
  let edge_labels := G_edge_labels.2 in
  fig ← plt_subplots;
  pos ← spring_layout G 3 50 (Some 42);
  let node_sizes := (λ nd, default 2000 nd.2) <$> g_node G in
  markers ← draw_networkx_nodes G pos node_sizes;
  arrows ← draw_networkx_edges G pos;
  labels ← draw_networkx_labels G pos;
  elabels ← match edge_labels with
            | [] => mret []
            | _ => draw_networkx_edge_labels pos edge_labels
            end;
  mret {| fig_number := fig;
          fig_figsize := (20, 14);
          fig_markers := markers;
          fig_arrows := arrows;
          fig_node_labels := labels;
          fig_edge_labels := elabels;
          fig_title := "Граф связей базы данных" |}.

(** ** The "load schema" button of the page

    [st.session_state['schema_info']] is assigned only after the extraction
    has returned; any exception ends in [st.error]. *)

Inductive Message :=
| StSuccess (n_tables : nat)
| StInfo (n_foreign_keys : nat)
| StError (e : Exception).

Record Page := {
  page_world : World;
  session_schema_info : option SchemaInfo;
  page_messages : list Message }.

Definition load_schema_button (p : ConnParams) (pg : Page) : Page :=
  match get_postgres_schema_with_relations p (page_world pg) with
  | (w, inr schema_info) =>
      {| page_world := w;
         session_schema_info := Some schema_info;
         page_messages :=
           page_messages pg ++
           [StSuccess (length (tables schema_info));
            StInfo (length (foreign_keys schema_info))] |}
  | (w, inl e) =>
      {| page_world := w;
         session_schema_info := session_schema_info pg;
         page_messages := page_messages pg ++ [StError e] |}
  end.

(** ** The tabs of the page that read the loaded model *)

(** Tab "Таблицы": what is written under "Первичные ключи" for a table. *)
Definition primary_keys_text (schema_info : SchemaInfo) (table : string)
  : string :=
  match primary_keys schema_info !! table with
  | Some pks => String.concat ", " pks
  | None => "Нет"
  end.

(** Tab "Анализ": the statistics table, one row per listed table. *)
Record TableStats := {
  stat_table : string;
  stat_columns : nat;
  stat_pk : nat;
  stat_fk : nat;
  stat_indexes : nat }.

(** One round of [for table in schema_info['tables']: stats.append(...)]. *)
Definition stats_append (schema_info : SchemaInfo) (table : string)
    (stats : list TableStats) : Run unit (list TableStats) :=
  cols ← lift (getitem (columns schema_info) table);
  mret (stats ++
        [ {| stat_table := table;
             stat_columns := length cols;
             stat_pk := length (default [] (primary_keys schema_info !! table));
             stat_fk :=
               sum_list ((λ _, 1%nat)
                         <$> filter (λ fk, from_table fk = table)
                                    (foreign_keys schema_info));
             stat_indexes :=
               length (default [] (indexes schema_info !! table)) |} ]).

(** The statistics loop, taken on its own.  On the page it runs after tab
    "Таблицы", which reads [columns[table]] of every listed table first: the
    page reaches the loop only with a model whose listed tables all have
    their [columns] entry. *)
Definition analysis_stats (schema_info : SchemaInfo)
  : Exception + list TableStats :=
  (for_each (tables schema_info) (stats_append schema_info) [] tt).2.

(** ** Notions the statements use *)

(** What one accepted round of the table loop leaves in the dict. *)
Definition table_entries (cat : Catalog) (si : SchemaInfo)
    (row : string * string) : SchemaInfo :=
  let table_full := row.1 +:+ "." +:+ row.2 in
  indexes_setitem table_full (index_of_row <$> select_indexes cat row.1 row.2)
    (foreign_keys_extend
       (foreign_key_of_row row.1 row.2 <$> select_foreign_keys cat row.1 row.2)
       (primary_keys_setitem table_full (select_primary_keys cat row.1 row.2)
          (columns_setitem table_full
             (column_of_row <$> select_columns cat row.1 row.2)
             (tables_append table_full si)))).

(** The server accepts the four statements of a table's round. *)
Definition table_accepted (srv : Server) (row : string * string) : Prop :=
  srv_rejects srv _ (SelectColumns row.1 row.2) = None
  ∧ srv_rejects srv _ (SelectPrimaryKeys row.1 row.2) = None
  ∧ srv_rejects srv _ (SelectForeignKeys row.1 row.2) = None
  ∧ srv_rejects srv _ (SelectIndexes row.1 row.2) = None.

#[global] Instance table_accepted_dec srv row : Decision (table_accepted srv row).
Proof. unfold table_accepted. apply _. Defined.

(** The server accepts everything an extraction with [p] asks of it. *)
Definition extraction_accepted (srv : Server) (p : ConnParams) : Prop :=
  srv_refuses srv p = None
  ∧ srv_rejects srv _ SelectTables = None
  ∧ Forall (table_accepted srv) (select_tables (srv_catalog srv)).

#[global] Instance extraction_accepted_dec srv p
  : Decision (extraction_accepted srv p).
Proof. unfold extraction_accepted. apply _. Defined.

(** Within one table no two columns share an ordinal position: the triple
    (schema, table, position) identifies a row of
    [information_schema.columns]. *)
Definition ordinal_position_key (cat : Catalog) : Prop :=
  NoDup ((λ c, (c_table_schema c, c_table_name c, c_ordinal_position c))
         <$> information_schema_columns cat).

Definition strictly_ascending (cols : list ColumnInfo) : Prop :=
  StronglySorted (λ a b, col_position a < col_position b) cols.





(** Every listed table has its entry in [columns]. *)
Definition columns_cover (si : SchemaInfo) : Prop :=
  Forall (λ t, is_Some (columns si !! t)) (tables si).

(** The statements the hierarchical diagram holds for a table and for a
    foreign key. *)
Definition graphviz_node (si : SchemaInfo) (table : string) : DotStatement :=
  DotNode table (table_label si table (default [] (columns si !! table)))
          "plaintext".

Definition graphviz_edge (fk : ForeignKey) : DotStatement :=
  DotEdge (quote_edge (from_table fk)) (quote_edge (to_table fk))
          (from_column fk +:+ " → " +:+ to_column fk) "blue" "10".

(** The nodes the edge of a foreign key runs between in the diagram. *)
Definition fk_dot_nodes (fk : ForeignKey) : list string :=
  [ep_node (quote_edge (from_table fk)); ep_node (quote_edge (to_table fk))].

(** A name without ':', and the endpoint that is such a name and no more. *)
Fixpoint colon_free (s : string) : bool :=
  match s with
  | EmptyString => true
  | String c s' => if Ascii.eqb c ":"%char then false else colon_free s'
  end.

Definition plain_endpoint (node : string) : DotEndpoint :=
  {| ep_node := node; ep_port := None; ep_compass := None |}.

Definition fk_endpoints (fk : ForeignKey) : list string :=
  [from_table fk; to_table fk].

(** The graph [generate_erd_networkx] builds: first the table nodes, then
    the foreign keys with their labels. *)
Definition tables_graph (si : SchemaInfo) (l : list string) (G : DiGraph)
  : DiGraph :=
  foldl (λ G t, add_node t
                  (Z.of_nat (length (default [] (columns si !! t))) * 100) G)
        G l.

Definition schema_graph (si : SchemaInfo)
  : DiGraph * list (string * string * string) :=
  foldl networkx_add_fk (tables_graph si (tables si) DiGraph_new, [])
        (foreign_keys si).

(** The figure drawn for a model, given the number pyplot assigns to it. *)
Definition drawn_figure `{LayoutBackend} (si : SchemaInfo) (num : nat)
  : Figure :=
  let G := (schema_graph si).1 in
  let at_ := (fruchterman_reingold G 3 50 (RandomState_seed 42)).1 in
  {| fig_number := num;
     fig_figsize := (20, 14);
     fig_markers := (λ nd, (nd.1, at_ nd.1, default 2000 nd.2)) <$> g_node G;
     fig_arrows := (λ e, (e.1, e.2, at_ e.1, at_ e.2)) <$> graph_edges G;
     fig_node_labels := (λ nd, (nd.1, at_ nd.1)) <$> g_node G;
     fig_edge_labels :=
       (λ el, (el.1.1, el.1.2, el.2, at_ el.1.1, at_ el.1.2))
       <$> (schema_graph si).2;
     fig_title := "Граф связей базы данных" |}.

(** Where the figure puts each node. *)
Definition node_coordinates `{LayoutBackend} (fig : Figure)
  : list (string * Coord) :=
  (λ mk, (mk.1.1, mk.1.2)) <$> fig_markers fig.

(** Every edge and every edge label runs between nodes of the graph. *)
Definition graph_closed (G : DiGraph) (labels : list (string * string * string))
  : Prop :=
  Forall (λ e, e.1 ∈ (g_node G).*1 ∧ e.2 ∈ (g_node G).*1) (g_edges G)
  ∧ Forall (λ el, el.1.1 ∈ (g_node G).*1 ∧ el.1.2 ∈ (g_node G).*1) labels.

(** The qualified name the extraction gives a listed table. *)
Definition full_name (row : string * string) : string :=
  row.1 +:+ "." +:+ row.2.

(** The exception of the first statement of a table's round that the server
    rejects, in the order the round issues them. *)
Definition first_rejection (srv : Server) (row : string * string)
  : option Exception :=
  match srv_rejects srv _ (SelectColumns row.1 row.2) with
  | Some e => Some e
  | None =>
    match srv_rejects srv _ (SelectPrimaryKeys row.1 row.2) with
    | Some e => Some e
    | None =>
      match srv_rejects srv _ (SelectForeignKeys row.1 row.2) with
      | Some e => Some e
      | None => srv_rejects srv _ (SelectIndexes row.1 row.2)
      end
    end
  end.



Definition fk_pair (fk : ForeignKey) : string * string :=
  (from_table fk, to_table fk).

(** The statistics row of a table whose columns are [cols]. *)
Definition stats_row (si : SchemaInfo) (table : string) : TableStats :=
  {| stat_table := table;
     stat_columns := length (default [] (columns si !! table));
     stat_pk := length (default [] (primary_keys si !! table));
     stat_fk := length (filter (λ fk, from_table fk = table) (foreign_keys si));
     stat_indexes := length (default [] (indexes si !! table)) |}.

(** The names of the nodes a figure shows, and the pairs its arrows join. *)
Definition marker_names `{LayoutBackend} (fig : Figure) : list string :=
  (λ mk, mk.1.1) <$> fig_markers fig.

Definition arrow_pairs `{LayoutBackend} (fig : Figure)
  : list (string * string) :=
  (λ a, (a.1.1.1, a.1.1.2)) <$> fig_arrows fig.

(** ** Sample data

    Two tables, [orders(id, customer_id -> customers.id)] and
    [customers(id, name)], next to a system table and a view that the table
    listing must skip. *)

Definition demo_catalog : Catalog := {|
  information_schema_tables :=
    [ {| t_table_schema := "public"; t_table_name := "orders";
         t_table_type := "BASE TABLE" |};
      {| t_table_schema := "public"; t_table_name := "customers";
         t_table_type := "BASE TABLE" |};
      {| t_table_schema := "pg_catalog"; t_table_name := "pg_class";
         t_table_type := "BASE TABLE" |};
      {| t_table_schema := "public"; t_table_name := "recent_orders";
         t_table_type := "VIEW" |} ];
  information_schema_columns :=
    [ {| c_table_schema := "public"; c_table_name := "orders";
         c_column_name := "customer_id"; c_data_type := "integer";
         c_is_nullable := "YES"; c_ordinal_position := 3 |};
      {| c_table_schema := "public"; c_table_name := "orders";
         c_column_name := "id"; c_data_type := "integer";
         c_is_nullable := "NO"; c_ordinal_position := 1 |};
      {| c_table_schema := "public"; c_table_name := "customers";
         c_column_name := "id"; c_data_type := "integer";
         c_is_nullable := "NO"; c_ordinal_position := 1 |};
      {| c_table_schema := "public"; c_table_name := "customers";
         c_column_name := "name"; c_data_type := "text";
         c_is_nullable := "YES"; c_ordinal_position := 2 |} ];
  information_schema_table_constraints :=
    [ {| tc_constraint_name := "orders_pkey"; tc_table_schema := "public";
         tc_table_name := "orders"; tc_constraint_type := "PRIMARY KEY" |};
      {| tc_constraint_name := "customers_pkey"; tc_table_schema := "public";
         tc_table_name := "customers"; tc_constraint_type := "PRIMARY KEY" |};
      {| tc_constraint_name := "orders_customer_id_fkey";
         tc_table_schema := "public"; tc_table_name := "orders";
         tc_constraint_type := "FOREIGN KEY" |} ];
  information_schema_constraint_column_usage :=
    [ {| ccu_table_schema := "public"; ccu_table_name := "orders";
         ccu_column_name := "id"; ccu_constraint_name := "orders_pkey" |};
      {| ccu_table_schema := "public"; ccu_table_name := "customers";
         ccu_column_name := "id"; ccu_constraint_name := "customers_pkey" |};
      {| ccu_table_schema := "public"; ccu_table_name := "customers";
         ccu_column_name := "id";
         ccu_constraint_name := "orders_customer_id_fkey" |} ];
  information_schema_key_column_usage :=
    [ {| kcu_constraint_name := "orders_pkey"; kcu_table_schema := "public";
         kcu_table_name := "orders"; kcu_column_name := "id" |};
      {| kcu_constraint_name := "customers_pkey"; kcu_table_schema := "public";
         kcu_table_name := "customers"; kcu_column_name := "id" |};
      {| kcu_constraint_name := "orders_customer_id_fkey";
         kcu_table_schema := "public"; kcu_table_name := "orders";
         kcu_column_name := "customer_id" |} ];
  pg_indexes :=
    [ {| ix_schemaname := "public"; ix_tablename := "orders";
         ix_indexname := "orders_pkey";
         ix_indexdef :=
           "CREATE UNIQUE INDEX orders_pkey ON public.orders USING btree (id)" |} ]
|}.

Definition demo_params : ConnParams :=
  {| host := "158.160.185.213"; port := 5432; database := "demo";
     user := "postgres"; password := "123" |}.

(** A server that accepts everything. *)
Definition demo_server : Server :=
  {| srv_catalog := demo_catalog;
     srv_refuses := λ _, None;
     srv_rejects := λ _ _, None |}.

(** A server on which the second table's column query is rejected. *)
Definition flaky_server : Server :=
  {| srv_catalog := demo_catalog;
     srv_refuses := λ _, None;
     srv_rejects := λ _ st,
       match st with
       | SelectColumns "public" "orders" =>
           Some (DatabaseError "canceling statement due to statement timeout")
       | _ => None
       end |}.

Definition demo_world : World := {| server := demo_server; connections := [] |}.
Definition flaky_world : World := {| server := flaky_server; connections := [] |}.

(** The model the sample catalog yields. *)
Definition demo_schema_info : SchemaInfo :=
  foldl (table_entries demo_catalog) empty_schema_info
        (select_tables demo_catalog).

(** A page that holds a model loaded earlier and now talks to the flaky
    server. *)
Definition flaky_page : Page :=
  {| page_world := flaky_world;
     session_schema_info := Some demo_schema_info;
     page_messages := [] |}.

(** A composite foreign key: [shipments(order_id, line_no)] references
    [order_lines(order_id, line_no)] through one constraint. *)
Definition shipments_fkey : table_constraints_row :=
  {| tc_constraint_name := "shipments_line_fkey"; tc_table_schema := "public";
     tc_table_name := "shipments"; tc_constraint_type := "FOREIGN KEY" |}.

Definition composite_catalog : Catalog := {|
  information_schema_tables :=
    [ {| t_table_schema := "public"; t_table_name := "shipments";
         t_table_type := "BASE TABLE" |};
      {| t_table_schema := "public"; t_table_name := "order_lines";
         t_table_type := "BASE TABLE" |} ];
  information_schema_columns :=
    [ {| c_table_schema := "public"; c_table_name := "order_lines";
         c_column_name := "order_id"; c_data_type := "integer";
         c_is_nullable := "NO"; c_ordinal_position := 1 |};
      {| c_table_schema := "public"; c_table_name := "order_lines";
         c_column_name := "line_no"; c_data_type := "integer";
         c_is_nullable := "NO"; c_ordinal_position := 2 |};
      {| c_table_schema := "public"; c_table_name := "shipments";
         c_column_name := "order_id"; c_data_type := "integer";
         c_is_nullable := "NO"; c_ordinal_position := 1 |};
      {| c_table_schema := "public"; c_table_name := "shipments";
         c_column_name := "line_no"; c_data_type := "integer";
         c_is_nullable := "NO"; c_ordinal_position := 2 |} ];
  information_schema_table_constraints := [ shipments_fkey ];
  information_schema_constraint_column_usage :=
    [ {| ccu_table_schema := "public"; ccu_table_name := "order_lines";
         ccu_column_name := "order_id";
         ccu_constraint_name := "shipments_line_fkey" |};
      {| ccu_table_schema := "public"; ccu_table_name := "order_lines";
         ccu_column_name := "line_no";
         ccu_constraint_name := "shipments_line_fkey" |} ];
  information_schema_key_column_usage :=
    [ {| kcu_constraint_name := "shipments_line_fkey";
         kcu_table_schema := "public"; kcu_table_name := "shipments";
         kcu_column_name := "order_id" |};
      {| kcu_constraint_name := "shipments_line_fkey";
         kcu_table_schema := "public"; kcu_table_name := "shipments";
         kcu_column_name := "line_no" |} ];
  pg_indexes := []
|}.

Definition composite_world : World :=
  {| server := {| srv_catalog := composite_catalog;
                  srv_refuses := λ _, None;
                  srv_rejects := λ _ _, None |};
     connections := [] |}.

Definition composite_schema_info : SchemaInfo :=
  foldl (table_entries composite_catalog) empty_schema_info
        (select_tables composite_catalog).

(** A stand-in for the numeric layout: integer coordinates that depend on
    the generator it is handed. *)
Definition toy_backend : LayoutBackend :=
  {| Coord := Z * Z;
     RandomState := Z;
     RandomState_seed := λ n, n;
     fruchterman_reingold := λ G k iterations rng,
       (λ n, (rng + Z.of_nat (String.length n), k * Z.of_nat iterations),
        rng + 1) |}.

(** A model whose only foreign key points outside the listed tables. *)
Definition dangling_schema_info : SchemaInfo :=
  {| tables := ["public.orders"];
     columns := {[ "public.orders" :=
                     [ {| col_name := "id"; col_type := "integer";
                          col_nullable := "NO"; col_position := 1 |};
                       {| col_name := "owner"; col_type := "oid";
                          col_nullable := "YES"; col_position := 2 |} ] ]};
     primary_keys := {[ "public.orders" := ["id"] ]};
     foreign_keys :=
       [ {| from_table := "public.orders"; from_column := "owner";
            to_table := "pg_catalog.pg_authid"; to_column := "oid" |} ];
     indexes := {[ "public.orders" := [] ]} |}.

(** A model without foreign keys. *)
Definition isolated_schema_info : SchemaInfo :=
  {| tables := ["public.customers"; "public.notes"];
     columns := {[ "public.customers" :=
                     [ {| col_name := "id"; col_type := "integer";
                          col_nullable := "NO"; col_position := 1 |} ];
                   "public.notes" := [] ]};
     primary_keys := {[ "public.customers" := ["id"]; "public.notes" := [] ]};
     foreign_keys := [];
     indexes := ∅ |}.

(** Three interpreter states over the stand-in backend that differ in the
    figure counter, and one that differs in numpy's generator. *)
Definition toy_state : @PyState toy_backend := @Build_PyState toy_backend 7 0.
Definition toy_state1 : @PyState toy_backend := @Build_PyState toy_backend 7 1.
Definition toy_state2 : @PyState toy_backend := @Build_PyState toy_backend 7 2.
Definition toy_state_reseeded : @PyState toy_backend :=
  @Build_PyState toy_backend 8 0.

(** A server that refuses every connection. *)
Definition unreachable_server : Server :=
  {| srv_catalog := demo_catalog;
     srv_refuses := λ _, Some (OperationalError "could not connect to server");
     srv_rejects := λ _ _, None |}.

Definition unreachable_page : Page :=
  {| page_world := {| server := unreachable_server; connections := [] |};
     session_schema_info := Some demo_schema_info;
     page_messages := [] |}.

(** A model that lists a table it has no columns for, and one with two
    foreign keys between the same pair of tables. *)
Definition uncovered_schema_info : SchemaInfo :=
  {| tables := ["public.customers"; "public.ghost"; "public.notes"];
     columns := columns isolated_schema_info;
     primary_keys := ∅;
     foreign_keys := [];
     indexes := ∅ |}.

Definition parallel_schema_info : SchemaInfo :=
  {| tables := ["public.flights"; "public.airports"];
     columns := {[ "public.flights" :=
                     [ {| col_name := "departure"; col_type := "text";
                          col_nullable := "NO"; col_position := 1 |};
                       {| col_name := "arrival"; col_type := "text";
                          col_nullable := "NO"; col_position := 2 |} ];
                   "public.airports" :=
                     [ {| col_name := "code"; col_type := "text";
                          col_nullable := "NO"; col_position := 1 |} ] ]};
     primary_keys := {[ "public.airports" := ["code"] ]};
     foreign_keys :=
       [ {| from_table := "public.flights"; from_column := "departure";
            to_table := "public.airports"; to_column := "code" |};
         {| from_table := "public.flights"; from_column := "arrival";
            to_table := "public.airports"; to_column := "code" |} ];
     indexes := ∅ |}.

(** A model with a table whose name has a colon (PostgreSQL takes any
    character in a quoted identifier) and a foreign key that points to it,
    and a model whose only foreign key points to such a table outside the
    listed ones. *)
Definition colon_schema_info : SchemaInfo :=
  {| tables := ["public.orders"; "public.a:b"];
     columns := {[ "public.orders" :=
                     [ {| col_name := "ref"; col_type := "integer";
                          col_nullable := "YES"; col_position := 1 |} ];
                   "public.a:b" :=
                     [ {| col_name := "id"; col_type := "integer";
                          col_nullable := "NO"; col_position := 1 |} ] ]};
     primary_keys := {[ "public.orders" := []; "public.a:b" := ["id"] ]};
     foreign_keys :=
       [ {| from_table := "public.orders"; from_column := "ref";
            to_table := "public.a:b"; to_column := "id" |} ];
     indexes := {[ "public.orders" := []; "public.a:b" := [] ]} |}.

Definition colon_dangling_schema_info : SchemaInfo :=
  {| tables := ["public.orders"];
     columns := {[ "public.orders" :=
                     [ {| col_name := "ref"; col_type := "integer";
                          col_nullable := "YES"; col_position := 1 |} ] ]};
     primary_keys := {[ "public.orders" := [] ]};
     foreign_keys :=
       [ {| from_table := "public.orders"; from_column := "ref";
            to_table := "other.x:y"; to_column := "id" |} ];
     indexes := {[ "public.orders" := [] ]} |}.

(** ** Extraction: what a call does to the world and what it returns *)

Lemma execute_fetchall_spec {A} cursor (st : Statement A) w :
  execute_fetchall cursor st w =
  (w, match srv_rejects (server w) A st with
      | Some e => inl e
      | None => inr (fetchall (srv_catalog (server w)) st)
      end).
Proof. unfold execute_fetchall. by destruct (srv_rejects _ _ _). Qed.

Ltac run_step :=
  unfold mbind, Run_bind, run_bind, mret, Run_ret, run_ret;
  rewrite ?execute_fetchall_spec.

Lemma extract_table_accepted cursor row si w :
  table_accepted (server w) row →
  extract_table cursor row si w
  = (w, inr (table_entries (srv_catalog (server w)) si row)).
Proof.
  intros (H1 & H2 & H3 & H4). unfold extract_table. run_step.
  rewrite H1. run_step. rewrite H2. run_step. rewrite H3. run_step.
  by rewrite H4.
Qed.

Lemma extract_table_rejected cursor row si w :
  ¬ table_accepted (server w) row →
  ∃ e, extract_table cursor row si w = (w, inl e).
Proof.
  intros Hno. unfold extract_table. run_step.
  destruct (srv_rejects _ _ (SelectColumns _ _)) eqn:H1; [by eauto|]. run_step.
  destruct (srv_rejects _ _ (SelectPrimaryKeys _ _)) eqn:H2; [by eauto|]. run_step.
  destruct (srv_rejects _ _ (SelectForeignKeys _ _)) eqn:H3; [by eauto|]. run_step.
  destruct (srv_rejects _ _ (SelectIndexes _ _)) eqn:H4; [by eauto|].
  by destruct Hno.
Qed.

Lemma table_loop_accepted cursor l si w :
  Forall (table_accepted (server w)) l →
  for_each l (extract_table cursor) si w
  = (w, inr (foldl (table_entries (srv_catalog (server w))) si l)).
Proof.
  intros Hall. revert si. induction Hall as [|row l Hrow _ IH]; intros si; [done|].
  simpl. run_step. rewrite (extract_table_accepted _ _ _ _ Hrow). apply IH.
Qed.

Lemma table_loop_rejected cursor l si w :
  ¬ Forall (table_accepted (server w)) l →
  ∃ e, for_each l (extract_table cursor) si w = (w, inl e).
Proof.
  revert si. induction l as [|row l IH]; intros si Hno; [by destruct Hno|].
  simpl. run_step.
  destruct (decide (table_accepted (server w) row)) as [Hacc|Hrow].
  - rewrite (extract_table_accepted _ _ _ _ Hacc). apply IH.
    intros Hl. apply Hno. by constructor.
  - destruct (extract_table_rejected cursor row si w Hrow) as [e ->]. eauto.
Qed.

Lemma connect_close_flags (flags : list bool) :
  <[length flags := false]> (flags ++ [true]) = flags ++ [false].
Proof. by rewrite insert_app_r_alt, Nat.sub_diag by lia. Qed.

(** An accepted extraction returns the fold of [table_entries] over the
    listed tables and leaves its connection closed. *)
Lemma extraction_accepted_run p w :
  extraction_accepted (server w) p →
  get_postgres_schema_with_relations p w
  = ({| server := server w; connections := connections w ++ [false] |},
     inr (foldl (table_entries (srv_catalog (server w))) empty_schema_info
                (select_tables (srv_catalog (server w))))).
Proof.
  intros (Hconn & Htables & Hall).
  unfold get_postgres_schema_with_relations, psycopg2_connect, conn_cursor,
    conn_close, modify.
  run_step. rewrite Hconn. simpl.
  rewrite execute_fetchall_spec. simpl. rewrite Htables.
  rewrite table_loop_accepted by done. simpl.
  by rewrite connect_close_flags.
Qed.

(** A refused connection, or a rejected statement, makes the call raise. *)
Lemma extraction_rejected_run p w :
  ¬ extraction_accepted (server w) p →
  ∃ w' e, get_postgres_schema_with_relations p w = (w', inl e).
Proof.
  intros Hno.
  unfold get_postgres_schema_with_relations, psycopg2_connect, conn_cursor,
    conn_close, modify.
  run_step. destruct (srv_refuses _ _) as [e|] eqn:Hconn; [by eauto|]. simpl.
  rewrite execute_fetchall_spec. simpl.
  destruct (srv_rejects _ _ SelectTables) as [e|] eqn:Htables; [by eauto|].
  match goal with
  | |- context [for_each ?l ?b ?a ?s] =>
      destruct (table_loop_rejected 
                  (length (connections w)) l a s) as [e ->]
  end; [|by eauto].
  simpl. intros Hall. by apply Hno.
Qed.

Lemma extraction_inr p w w' m :
  get_postgres_schema_with_relations p w = (w', inr m) →
  extraction_accepted (server w) p
  ∧ w' = {| server := server w; connections := connections w ++ [false] |}
  ∧ m = foldl (table_entries (srv_catalog (server w))) empty_schema_info
              (select_tables (srv_catalog (server w))).
Proof.
  intros Hrun. destruct (decide (extraction_accepted (server w) p)) as [Hacc|Hno].
  - rewrite (extraction_accepted_run _ _ Hacc) in Hrun.
    by injection Hrun as <- <-.
  - destruct (extraction_rejected_run p w Hno) as (? & ? & ?). congruence.
Qed.

(** ** C1: the connection on the failure path *)

(** When the connection is accepted and a later statement is rejected, the
    call raises with its connection still open: [conn.close()] is reached on
    the success path only. *)
Lemma rejected_statement_leaves_connection_open p w :
  srv_refuses (server w) p = None →
  ¬ extraction_accepted (server w) p →
  ∃ e, get_postgres_schema_with_relations p w
       = ({| server := server w; connections := connections w ++ [true] |},
          inl e).
Proof.
  intros Hconn Hno.
  unfold get_postgres_schema_with_relations, psycopg2_connect, conn_cursor.
  run_step. rewrite Hconn. simpl. rewrite execute_fetchall_spec. simpl.
  destruct (srv_rejects _ _ SelectTables) as [e|] eqn:Htables; [by eauto|].
  match goal with
  | |- context [for_each ?l ?b ?a ?s] =>
      destruct (table_loop_rejected (length (connections w)) l a s) as [e ->]
  end; [|by eauto].
  simpl. intros Hall. by apply Hno.
Qed.

(** C1 (evaluation at the failing input): on the flaky server the table
    listing succeeds, the column query of [public.orders] is rejected, and the
    call raises while the one connection it opened is still flagged open. *)
Theorem get_postgres_schema_raises_with_open_connection :
  get_postgres_schema_with_relations demo_params flaky_world
  = ({| server := flaky_server; connections := [true] |},
     inl (DatabaseError "canceling statement due to statement timeout")).
Proof. vm_compute. reflexivity. Qed.

(** On the success path the call opens one connection and closes it. *)
Lemma returned_extraction_closes_connection p w w' m :
  get_postgres_schema_with_relations p w = (w', inr m) →
  connections w' = connections w ++ [false].
Proof. by intros (_ & -> & _)%extraction_inr. Qed.

(** ** C2: a failed extraction yields no model and keeps the loaded one *)

(** C2: when the server refuses the connection or rejects any statement the
    extraction issues, [get_postgres_schema_with_relations] raises (its result
    is an exception, which carries no schema model, partial or other), and the
    page's load button leaves the model stored in the session state as it
    was. *)
Theorem failed_extraction_no_model p pg :
  ¬ extraction_accepted (server (page_world pg)) p →
  (∃ w' e, get_postgres_schema_with_relations p (page_world pg) = (w', inl e))
  ∧ session_schema_info (load_schema_button p pg) = session_schema_info pg.
Proof.
  intros Hno. destruct (extraction_rejected_run p _ Hno) as (w' & e & Hrun).
  split; [by eauto|]. unfold load_schema_button. by rewrite Hrun.
Qed.

Lemma failed_extraction_no_model_witness :
  (∃ w' e, get_postgres_schema_with_relations demo_params
             (page_world flaky_page) = (w', inl e))
  ∧ session_schema_info (load_schema_button demo_params flaky_page)
    = session_schema_info flaky_page.
Proof.
  apply (failed_extraction_no_model demo_params flaky_page).
  apply (proj1 (bool_decide_eq_false _)). vm_compute. reflexivity.
Defined.

(** ** The entries of the extracted model *)

Lemma foldl_table_entries_inv cat (I : SchemaInfo → Prop) :
  (∀ si row, I si → I (table_entries cat si row)) →
  ∀ l si, I si → I (foldl (table_entries cat) si l).
Proof. intros Hstep l. induction l; simpl; auto. Qed.

Lemma tables_table_entries cat si row :
  tables (table_entries cat si row) = tables si ++ [row.1 +:+ "." +:+ row.2].
Proof. done. Qed.

Lemma columns_table_entries cat si row :
  columns (table_entries cat si row)
  = <[row.1 +:+ "." +:+ row.2 :=
        column_of_row <$> select_columns cat row.1 row.2]> (columns si).
Proof. done. Qed.

Lemma primary_keys_table_entries cat si row :
  primary_keys (table_entries cat si row)
  = <[row.1 +:+ "." +:+ row.2 := select_primary_keys cat row.1 row.2]>
      (primary_keys si).
Proof. done. Qed.

Lemma foreign_keys_table_entries cat si row :
  foreign_keys (table_entries cat si row)
  = foreign_keys si ++
    (foreign_key_of_row row.1 row.2 <$> select_foreign_keys cat row.1 row.2).
Proof. done. Qed.

(** Every listed table of an extracted model has its [columns] entry. *)
Lemma extracted_columns_cover cat l :
  columns_cover (foldl (table_entries cat) empty_schema_info l).
Proof.
  apply foldl_table_entries_inv; [|by constructor].
  intros si row Hsi. unfold columns_cover.
  rewrite tables_table_entries, columns_table_entries.
  apply Forall_app. split.
  - eapply Forall_impl; [exact Hsi|]. intros t Ht. simpl in *.
    by apply lookup_insert_is_Some'; right.
  - constructor; [|constructor]. by rewrite lookup_insert_eq.
Qed.

(** A property of every table's column query holds of every [columns]
    entry; one relating the column query and the primary-key query of the
    same table relates the two entries under the same key. *)
Lemma extracted_entries cat (P : list ColumnInfo → list string → Prop) l :
  (∀ schema table,
      P (column_of_row <$> select_columns cat schema table)
        (select_primary_keys cat schema table)) →
  ∀ t, (∀ cols, columns (foldl (table_entries cat) empty_schema_info l) !! t
                = Some cols →
          ∃ pks, primary_keys (foldl (table_entries cat) empty_schema_info l) !! t
                 = Some pks ∧ P cols pks)
     ∧ (∀ pks, primary_keys (foldl (table_entries cat) empty_schema_info l) !! t
               = Some pks →
          ∃ cols, columns (foldl (table_entries cat) empty_schema_info l) !! t
                  = Some cols ∧ P cols pks).
Proof.
  intros HP.
  apply (foldl_table_entries_inv cat
           (λ si, ∀ t,
              (∀ cols, columns si !! t = Some cols →
                 ∃ pks, primary_keys si !! t = Some pks ∧ P cols pks)
              ∧ (∀ pks, primary_keys si !! t = Some pks →
                 ∃ cols, columns si !! t = Some cols ∧ P cols pks))).
  - intros si row Hsi t.
    rewrite columns_table_entries, primary_keys_table_entries.
    destruct (decide (row.1 +:+ "." +:+ row.2 = t)) as [<-|Hne].
    + rewrite !lookup_insert_eq. split; intros ? [= <-]; eauto.
    + rewrite !lookup_insert_ne by done. apply Hsi.
  - intros t. simpl. split; intros ?; by rewrite lookup_empty.
Qed.

(** ** C3: columns come out in strictly ascending position *)

#[global] Instance position_le_trans : Transitive position_le.
Proof. unfold position_le. intros a b c. lia. Qed.

#[global] Instance position_le_total : Total position_le.
Proof. unfold position_le. intros a b. lia. Qed.

Lemma StronglySorted_le_NoDup_lt (l : list Z) :
  StronglySorted Z.le l → NoDup l → StronglySorted Z.lt l.
Proof.
  induction 1 as [|x l _ IH Hx]; intros Hnd; constructor.
  - apply IH. by apply NoDup_cons in Hnd as [_ ?].
  - apply NoDup_cons in Hnd as [Hnotin _].
    apply Forall_forall. intros y Hy.
    pose proof (proj1 (Forall_forall _ _) Hx y Hy).
    assert (x ≠ y) by (intros ->; done). lia.
Qed.

(** Within the rows of one table the positions are pairwise distinct. *)
Lemma table_positions_NoDup cat schema table :
  ordinal_position_key cat →
  NoDup (c_ordinal_position <$>
         filter (λ c, c_table_schema c = schema ∧ c_table_name c = table)
                (information_schema_columns cat)).
Proof.
  unfold ordinal_position_key. intros Hkey.
  set (l := filter _ _).
  apply (NoDup_fmap_1 (λ pos : Z, (schema, table, pos))).
  rewrite <-list_fmap_compose.
  assert (Hl : (λ pos : Z, (schema, table, pos)) ∘ c_ordinal_position <$> l
               = (λ c, (c_table_schema c, c_table_name c, c_ordinal_position c))
                 <$> l).
  { apply list_fmap_ext. intros i c Hc%list_elem_of_lookup_2.
    apply list_elem_of_filter in Hc as [[<- <-] _]. done. }
  rewrite Hl. eapply sublist_NoDup; [exact Hkey|].
  apply fmap_sublist, sublist_filter.
Qed.

Lemma select_columns_strictly_ascending cat schema table :
  ordinal_position_key cat →
  strictly_ascending (column_of_row <$> select_columns cat schema table).
Proof.
  intros Hkey. unfold strictly_ascending, select_columns, order_by.
  rewrite <-list_fmap_compose.
  set (l := filter _ _).
  assert (Hlt : StronglySorted Z.lt (c_ordinal_position <$> merge_sort position_le l)).
  { apply StronglySorted_le_NoDup_lt.
    - apply (StronglySorted_fmap _ position_le); [done|].
      apply StronglySorted_merge_sort; apply _.
    - rewrite merge_sort_Permutation. by apply table_positions_NoDup. }
  revert Hlt. generalize (merge_sort position_le l). intros k.
  induction k as [|c k IH]; csimpl; [constructor|].
  intros Hs. apply StronglySorted_inv in Hs as [Hk Hc].
  constructor; [by apply IH|].
  apply Forall_forall. intros b (c' & -> & Hc')%list_elem_of_fmap. simpl.
  apply (proj1 (Forall_forall _ _) Hc), list_elem_of_fmap. eauto.
Qed.

(** C3: in every model the extraction returns, when the catalog keeps
    (schema, table, ordinal position) distinct across the rows of
    [information_schema.columns], every listed table [t] has a [columns]
    entry and that entry is strictly ascending in [position]. *)
Theorem extracted_columns_strictly_ascending p w w' m :
  ordinal_position_key (srv_catalog (server w)) →
  get_postgres_schema_with_relations p w = (w', inr m) →
  ∀ t, t ∈ tables m →
    ∃ cols, columns m !! t = Some cols ∧ strictly_ascending cols.
Proof.
  intros Hkey (_ & _ & ->)%extraction_inr t Ht.
  pose proof (extracted_columns_cover (srv_catalog (server w))
                (select_tables (srv_catalog (server w)))) as Hcover.
  destruct (proj1 (Forall_forall _ _) Hcover t Ht) as [cols Hcols].
  exists cols. split; [done|].
  destruct (extracted_entries (srv_catalog (server w))
              (λ cols _, strictly_ascending cols)
              (select_tables (srv_catalog (server w)))) with (t := t)
    as [Hc _].
  - intros. by apply select_columns_strictly_ascending.
  - destruct (Hc cols Hcols) as (_ & _ & ?). done.
Qed.

Lemma extracted_columns_strictly_ascending_witness :
  ordinal_position_key (srv_catalog (server demo_world))
  ∧ get_postgres_schema_with_relations demo_params demo_world
    = ({| server := demo_server; connections := [false] |},
       inr demo_schema_info)
  ∧ "public.orders" ∈ tables demo_schema_info
  ∧ ∃ cols, columns demo_schema_info !! "public.orders" = Some cols
            ∧ strictly_ascending cols.
Proof.
  assert (Hkey : ordinal_position_key (srv_catalog (server demo_world)))
    by (apply (bool_decide_unpack _); vm_compute; exact I).
  assert (Hrun : get_postgres_schema_with_relations demo_params demo_world
                 = ({| server := demo_server; connections := [false] |},
                    inr demo_schema_info))
    by (vm_compute; reflexivity).
  assert (Hin : "public.orders" ∈ tables demo_schema_info)
    by (apply (bool_decide_unpack _); vm_compute; exact I).
  repeat split; try assumption.
  exact (extracted_columns_strictly_ascending demo_params demo_world _
           demo_schema_info Hkey Hrun "public.orders" Hin).
Defined.

(** ** C4: primary-key columns are columns of the table *)

Lemma elem_of_cross_join {A B} (l : list A) (r : list B) (j : A * B) :
  j ∈ cross_join l r ↔ j.1 ∈ l ∧ j.2 ∈ r.
Proof.
  unfold cross_join. rewrite list_elem_of_bind. split.
  - intros (a & (b & ->%list_elem_of_singleton & Hb)%list_elem_of_bind & Ha).
    done.
  - intros [Ha Hb]. exists j.1. split; [|done].
    apply list_elem_of_bind. exists j.2. split; [|done].
    apply list_elem_of_singleton. by destruct j.
Qed.

Lemma elem_of_inner_join {A B} (on : A * B → Prop) `{∀ j, Decision (on j)}
    (l : list A) (r : list B) (j : A * B) :
  j ∈ inner_join on l r ↔ on j ∧ j.1 ∈ l ∧ j.2 ∈ r.
Proof.
  unfold inner_join. by rewrite list_elem_of_filter, elem_of_cross_join.
Qed.

Lemma elem_of_order_by {A} (le : A → A → Prop) `{∀ a b, Decision (le a b)}
    (l : list A) (x : A) :
  x ∈ order_by le l ↔ x ∈ l.
Proof. unfold order_by. by rewrite merge_sort_Permutation. Qed.

(** The primary-key query joins [information_schema.columns] on the table
    it is asked about, so each name it yields is a column the column query
    yields for that table. *)
Lemma select_primary_keys_are_columns cat schema table name :
  name ∈ select_primary_keys cat schema table →
  name ∈ col_name <$> (column_of_row <$> select_columns cat schema table).
Proof.
  unfold select_primary_keys, select_columns.
  intros (j & -> & Hj)%list_elem_of_fmap.
  apply list_elem_of_filter in Hj as [(_ & Hschema & Htable) Hj].
  apply elem_of_inner_join in Hj as [(Hcs & Hct & _) [_ Hc]].
  apply list_elem_of_fmap. eexists. split; [|apply list_elem_of_fmap_2].
  2: { apply list_elem_of_fmap_2, elem_of_order_by, list_elem_of_filter.
       split; [|exact Hc]. simpl. split; congruence. }
  done.
Qed.

(** C4: in every model the extraction returns, each name listed under
    [primary_keys[t]] is the name of a column listed under [columns[t]]. *)
Theorem extracted_primary_keys_are_columns p w w' m :
  get_postgres_schema_with_relations p w = (w', inr m) →
  ∀ t pks, primary_keys m !! t = Some pks →
    ∃ cols, columns m !! t = Some cols
            ∧ ∀ name, name ∈ pks → name ∈ col_name <$> cols.
Proof.
  intros (_ & _ & ->)%extraction_inr t pks Hpks.
  destruct (extracted_entries (srv_catalog (server w))
              (λ cols pks, ∀ name, name ∈ pks → name ∈ col_name <$> cols)
              (select_tables (srv_catalog (server w)))) with (t := t)
    as [_ Hp]; [|by apply Hp].
  intros schema table name. apply select_primary_keys_are_columns.
Qed.

Lemma extracted_primary_keys_are_columns_witness :
  get_postgres_schema_with_relations demo_params demo_world
  = ({| server := demo_server; connections := [false] |},
     inr demo_schema_info)
  ∧ primary_keys demo_schema_info !! "public.orders" = Some ["id"]
  ∧ ∃ cols, columns demo_schema_info !! "public.orders" = Some cols
            ∧ ∀ name, name ∈ ["id"] → name ∈ col_name <$> cols.
Proof.
  assert (Hrun : get_postgres_schema_with_relations demo_params demo_world
                 = ({| server := demo_server; connections := [false] |},
                    inr demo_schema_info))
    by (vm_compute; reflexivity).
  assert (Hpk : primary_keys demo_schema_info !! "public.orders" = Some ["id"])
    by (vm_compute; reflexivity).
  repeat split; try assumption.
  exact (extracted_primary_keys_are_columns demo_params demo_world _
           demo_schema_info Hrun "public.orders" ["id"] Hpk).
Defined.

(** ** C10: a composite foreign key yields every pairing *)

Section join_lemmas.
Context {A B : Type} (on : A * B → Prop) `{∀ j, Decision (on j)}.


End join_lemmas.







(** On the sample: the two-column key gives four edges, among them the two
    mismatched pairings. *)
Example composite_schema_foreign_keys :
  (λ fk, (from_column fk, to_column fk)) <$> foreign_keys composite_schema_info
  = [("order_id", "order_id"); ("order_id", "line_no");
     ("line_no", "order_id"); ("line_no", "line_no")].
Proof. vm_compute. reflexivity. Qed.

(** ** The hierarchical diagram *)

Lemma graphviz_table_loop si l d :
  Forall (λ t, is_Some (columns si !! t)) l →
  for_each l (graphviz_add_table si) tt d
  = ({| dot_comment := dot_comment d;
        dot_graph_attr := dot_graph_attr d;
        dot_body := dot_body d ++ (graphviz_node si <$> l) |}, inr tt).
Proof.
  intros Hl. revert d. induction Hl as [|t l [cols Ht] _ IH]; intros d.
  - simpl. rewrite app_nil_r. by destruct d.
  - simpl. run_step. unfold graphviz_add_table at 1, getitem.
    rewrite Ht. unfold dot_node, dot_append, modify. rewrite IH. simpl.
    unfold graphviz_node at 2. rewrite Ht. simpl.
    by rewrite <-(assoc_L (++)).
Qed.

Lemma graphviz_table_loop_raises si l d :
  ¬ Forall (λ t, is_Some (columns si !! t)) l →
  ∃ d' e, for_each l (graphviz_add_table si) tt d = (d', inl e).
Proof.
  revert d. induction l as [|t l IH]; intros d Hno; [by destruct Hno|].
  simpl. run_step. unfold graphviz_add_table at 1, getitem.
  destruct (columns si !! t) as [cols|] eqn:Ht; [|by unfold raise; eauto].
  unfold dot_node, dot_append, modify. apply IH.
  intros Hl. apply Hno. constructor; [by eauto|done].
Qed.

Lemma graphviz_fk_loop l d :
  for_each l graphviz_add_fk tt d
  = ({| dot_comment := dot_comment d;
        dot_graph_attr := dot_graph_attr d;
        dot_body := dot_body d ++ (graphviz_edge <$> l) |}, inr tt).
Proof.
  revert d. induction l as [|fk l IH]; intros d.
  - simpl. rewrite app_nil_r. by destruct d.
  - simpl. run_step. unfold graphviz_add_fk at 1, dot_edge, dot_append, modify.
    rewrite IH. simpl. by rewrite <-(assoc_L (++)).
Qed.

(** The diagram of a model whose listed tables all have their columns. *)
Lemma generate_erd_graphviz_returns si :
  columns_cover si →
  generate_erd_graphviz si
  = inr {| dot_comment := "Database Schema";
           dot_graph_attr := [("rankdir", "LR"); ("size", "12,8")];
           dot_body := (graphviz_node si <$> tables si)
                       ++ (graphviz_edge <$> foreign_keys si) |}.
Proof.
  intros Hcover. unfold generate_erd_graphviz, dot_attr, modify. run_step.
  rewrite graphviz_table_loop by done. by rewrite graphviz_fk_loop.
Qed.

(** A listed table without columns makes the renderer raise. *)
Lemma generate_erd_graphviz_raises si :
  ¬ columns_cover si → ∃ e, generate_erd_graphviz si = inl e.
Proof.
  intros Hno. unfold generate_erd_graphviz, dot_attr, modify. run_step.
  match goal with
  | |- context [for_each ?l ?b tt ?d] =>
      destruct (graphviz_table_loop_raises si l d Hno) as (d' & e & ->)
  end.
  eauto.
Qed.

Lemma dot_edges_body si tbls fks :
  ((graphviz_node si <$> tbls) ++ (graphviz_edge <$> fks))
  ≫= (λ st, match st with
            | DotEdge _ _ _ _ _ => [st]
            | DotNode _ _ _ => []
            end)
  = graphviz_edge <$> fks.
Proof.
  rewrite bind_app.
  assert (Hn : (graphviz_node si <$> tbls)
               ≫= (λ st, match st with
                         | DotEdge _ _ _ _ _ => [st]
                         | DotNode _ _ _ => []
                         end) = []).
  { induction tbls as [|t tbls IH]; [done|]. csimpl. by rewrite IH. }
  rewrite Hn. simpl.
  induction fks as [|fk fks IH]; [done|]. csimpl. by rewrite IH.
Qed.

Lemma dot_names_body si tbls fks :
  ((graphviz_node si <$> tbls) ++ (graphviz_edge <$> fks))
  ≫= dot_statement_names
  = tbls ++ (fks ≫= fk_dot_nodes).
Proof.
  rewrite bind_app. f_equal.
  - induction tbls as [|t tbls IH]; [done|]. csimpl. by rewrite IH.
  - induction fks as [|fk fks IH]; [done|]. csimpl. by rewrite IH.
Qed.

(** ** C7: the edges of the diagram and the nodes they reach *)

Lemma partition_colon_free s :
  colon_free s = true → partition_colon s = (s, EmptyString).
Proof.
  induction s as [|c s IH]; [done|]. simpl.
  destruct (Ascii.eqb c ":"); [done|]. intros Hs. by rewrite (IH Hs).
Qed.

Lemma quote_edge_colon_free s :
  colon_free s = true → quote_edge s = plain_endpoint s.
Proof.
  intros Hs. unfold quote_edge. by rewrite (partition_colon_free s Hs).
Qed.

(** C7 (evaluation at the failing input): the foreign key of the sample
    points to the table [public.a:b], which has its node statement; the one
    edge of the diagram runs from [public.orders] to a node [public.a] (port
    [b]) that no node statement declares, and no edge reaches the node of
    [public.a:b]. *)
Theorem graphviz_edge_misses_table_with_colon :
  match generate_erd_graphviz colon_schema_info with
  | inr dot =>
      dot_edges dot
      = [DotEdge (plain_endpoint "public.orders")
                 {| ep_node := "public.a"; ep_port := Some "b";
                    ep_compass := None |}
                 "ref → id" "blue" "10"]
      ∧ dot_node_labels dot "public.a" = []
      ∧ dot_body dot ≫= dot_statement_names
        = ["public.orders"; "public.a:b"; "public.orders"; "public.a"]
  | inl _ => False
  end.
Proof. vm_compute. done. Qed.

(** ** Python dicts as item lists *)

Section dict_lemmas.
Context {K V : Type} `{EqDecision K}.
Implicit Types (d : list (K * V)) (k : K) (v : V).

Lemma dict_get_None d k : dict_get k d = None ↔ k ∉ d.*1.
Proof.
  induction d as [|[k' v'] d IH]; simpl.
  - split; [intros _; apply not_elem_of_nil|done].
  - rewrite not_elem_of_cons. destruct (decide (k' = k)) as [-> |Hne].
    + split; [done|]. by intros [? _].
    + rewrite IH. split; [by intros ?; split|by intros [_ ?]].
Qed.

Lemma dict_get_Some d k v : dict_get k d = Some v → (k, v) ∈ d.
Proof.
  induction d as [|[k' v'] d IH]; simpl; [done|].
  destruct (decide (k' = k)) as [-> |Hne].
  - intros [= ->]. left.
  - intros Hd. right. by apply IH.
Qed.

Lemma dict_setitem_keys d k v :
  (dict_setitem k v d).*1 = if decide (k ∈ d.*1) then d.*1 else d.*1 ++ [k].
Proof.
  induction d as [|[k' v'] d IH]; csimpl.
  - first [done | by rewrite decide_False by apply not_elem_of_nil].
  - destruct (decide (k' = k)) as [-> |Hne]; csimpl.
    + rewrite decide_True; [done|left].
    + rewrite IH. destruct (decide (k ∈ d.*1)) as [Hin|Hnin].
      * rewrite decide_True; [done|by right].
      * rewrite decide_False; [done|]. rewrite not_elem_of_cons. by split.
Qed.

Lemma dict_get_setitem d k v k' :
  dict_get k' (dict_setitem k v d)
  = if decide (k = k') then Some v else dict_get k' d.
Proof.
  induction d as [|[k0 v0] d IH]; simpl.
  - by destruct (decide (k = k')).
  - destruct (decide (k0 = k)) as [-> |Hne]; simpl.
    + by destruct (decide (k = k')).
    + rewrite IH. destruct (decide (k0 = k')) as [-> |?]; [|done].
      destruct (decide (k = k')); [congruence|done].
Qed.

Lemma elem_of_dict_setitem d k v (x : K * V) :
  x ∈ dict_setitem k v d → x = (k, v) ∨ x ∈ d.
Proof.
  induction d as [|[k' v'] d IH]; simpl.
  - intros ->%list_elem_of_singleton. by left.
  - destruct (decide (k' = k)) as [-> |Hne].
    + intros [-> |?]%elem_of_cons; [by left|]. right. by right.
    + intros [-> |Hx]%elem_of_cons; [right; left|].
      destruct (IH Hx) as [-> |?]; [by left|]. right. by right.
Qed.

Lemma dict_setitem_NoDup d k v : NoDup d.*1 → NoDup (dict_setitem k v d).*1.
Proof.
  intros Hd. rewrite dict_setitem_keys. destruct (decide _); [done|].
  apply NoDup_app. split; [done|]. split; [|apply NoDup_singleton].
  intros x Hx ->%list_elem_of_singleton. done.
Qed.
End dict_lemmas.

(** ** The graph of a model *)

Lemma touch_node_keys n (d : list (string * option Z)) :
  (touch_node n d).*1 = if decide (n ∈ d.*1) then d.*1 else d.*1 ++ [n].
Proof.
  unfold touch_node. destruct (dict_get n d) as [a|] eqn:Hn.
  - rewrite decide_True; [done|].
    apply dict_get_Some in Hn. apply list_elem_of_fmap. by exists (n, a).
  - apply dict_get_None in Hn. rewrite decide_False by done.
    by rewrite fmap_app.
Qed.

Lemma touch_node_elem_of n (d : list (string * option Z)) x :
  x ∈ touch_node n d → x ∈ d ∨ x = (n, None).
Proof.
  unfold touch_node. destruct (dict_get n d); [by left|].
  intros [? | ->%list_elem_of_singleton]%elem_of_app; [by left|by right].
Qed.

Lemma touch_node_preserves n (d : list (string * option Z)) x :
  x ∈ d → x ∈ touch_node n d.
Proof.
  unfold touch_node. destruct (dict_get n d); [done|].
  intros ?. apply elem_of_app. by left.
Qed.

Lemma touch_node_keys_mono n (d : list (string * option Z)) k :
  k ∈ d.*1 → k ∈ (touch_node n d).*1.
Proof.
  rewrite touch_node_keys. destruct (decide _); [done|].
  intros ?. apply elem_of_app. by left.
Qed.

Lemma touch_node_keys_self n (d : list (string * option Z)) :
  n ∈ (touch_node n d).*1.
Proof.
  rewrite touch_node_keys. destruct (decide _); [done|].
  apply elem_of_app. right. left.
Qed.

Lemma touch_node_NoDup n (d : list (string * option Z)) :
  NoDup d.*1 → NoDup (touch_node n d).*1.
Proof.
  intros Hd. rewrite touch_node_keys. destruct (decide _); [done|].
  apply NoDup_app. split; [done|]. split; [|apply NoDup_singleton].
  intros x Hx ->%list_elem_of_singleton. done.
Qed.

(** The table nodes. *)
Lemma tables_graph_snoc si l t G :
  tables_graph si (l ++ [t]) G
  = add_node t (Z.of_nat (length (default [] (columns si !! t))) * 100)
             (tables_graph si l G).
Proof. unfold tables_graph. by rewrite foldl_snoc. Qed.

Lemma tables_graph_edges si l G :
  g_edges (tables_graph si l G) = g_edges G.
Proof.
  induction l as [|t l IH] using rev_ind; [done|].
  by rewrite tables_graph_snoc.
Qed.

Lemma tables_graph_NoDup si l G :
  NoDup (g_node G).*1 → NoDup (g_node (tables_graph si l G)).*1.
Proof.
  intros HG. induction l as [|t l IH] using rev_ind; [done|].
  rewrite tables_graph_snoc. simpl. by apply dict_setitem_NoDup.
Qed.

Lemma tables_graph_keys si l :
  NoDup l → (g_node (tables_graph si l DiGraph_new)).*1 = l.
Proof.
  induction l as [|t l IH] using rev_ind; [done|].
  intros [Hl [Ht _]]%NoDup_app.
  rewrite tables_graph_snoc. simpl. rewrite dict_setitem_keys, IH by done.
  rewrite decide_False; [done|].
  intros Hin. apply (Ht t Hin). left.
Qed.

Lemma tables_graph_keys_elem_of si l k :
  k ∈ (g_node (tables_graph si l DiGraph_new)).*1 → k ∈ l.
Proof.
  induction l as [|t l IH] using rev_ind; [done|].
  rewrite tables_graph_snoc. simpl. rewrite dict_setitem_keys, elem_of_app.
  destruct (decide _).
  - intros ?. left. by apply IH.
  - intros [?|?]%elem_of_app; [left; by apply IH|by right].
Qed.

Lemma tables_graph_size si l t :
  t ∈ l →
  dict_get t (g_node (tables_graph si l DiGraph_new))
  = Some (Some (Z.of_nat (length (default [] (columns si !! t))) * 100)).
Proof.
  induction l as [|t' l IH] using rev_ind; [by intros ?%elem_of_nil|].
  intros Ht. rewrite tables_graph_snoc. simpl. rewrite dict_get_setitem.
  destruct (decide (t' = t)) as [-> |Hne]; [done|].
  apply IH. apply elem_of_app in Ht as [?|?%list_elem_of_singleton]; [done|].
  congruence.
Qed.

(** Adding the foreign keys keeps the nodes that are there, creates the
    missing endpoints without attributes, and leaves every edge and label
    between nodes. *)
Lemma add_fk_nodes_preserved fks G labels x :
  x ∈ g_node G → x ∈ g_node (foldl networkx_add_fk (G, labels) fks).1.
Proof.
  revert G labels. induction fks as [|fk fks IH]; intros G labels Hx; [done|].
  simpl. apply IH. simpl. by do 2 apply touch_node_preserves.
Qed.

Lemma add_fk_nodes_NoDup fks G labels :
  NoDup (g_node G).*1 →
  NoDup (g_node (foldl networkx_add_fk (G, labels) fks).1).*1.
Proof.
  revert G labels. induction fks as [|fk fks IH]; intros G labels HG; [done|].
  simpl. apply IH. simpl. by do 2 apply touch_node_NoDup.
Qed.

Lemma add_fk_nodes_origin fks G labels x :
  x ∈ g_node (foldl networkx_add_fk (G, labels) fks).1 →
  x ∈ g_node G ∨ x.2 = None.
Proof.
  revert G labels. induction fks as [|fk fks IH]; intros G labels; [by left|].
  simpl. intros [Hx|?]%IH; [|by right]. simpl in Hx.
  apply touch_node_elem_of in Hx as [Hx| ->]; [|by right].
  apply touch_node_elem_of in Hx as [Hx| ->]; [by left|by right].
Qed.

Lemma add_fk_endpoints fks G labels fk u :
  fk ∈ fks → u ∈ fk_endpoints fk →
  u ∈ (g_node (foldl networkx_add_fk (G, labels) fks).1).*1.
Proof.
  revert G labels. induction fks as [|fk' fks IH]; intros G labels Hfk Hu.
  { by apply elem_of_nil in Hfk. }
  apply elem_of_cons in Hfk as [<-|Hfk]; [|by apply IH].
  simpl.
  assert (Hnow : u ∈ (g_node (networkx_add_fk (G, labels) fk).1).*1).
  { simpl. unfold fk_endpoints in Hu.
    apply elem_of_cons in Hu as [-> |Hu].
    - apply touch_node_keys_mono, touch_node_keys_self.
    - apply list_elem_of_singleton in Hu as ->. apply touch_node_keys_self. }
  apply list_elem_of_fmap in Hnow as (x & -> & Hx).
  apply list_elem_of_fmap. exists x. split; [done|].
  destruct (networkx_add_fk (G, labels) fk) as [G' labels'].
  by apply add_fk_nodes_preserved.
Qed.

Lemma add_fk_closed fks G labels :
  graph_closed G labels →
  graph_closed (foldl networkx_add_fk (G, labels) fks).1
               (foldl networkx_add_fk (G, labels) fks).2.
Proof.
  revert G labels. induction fks as [|fk fks IH]; intros G labels HG; [done|].
  simpl. apply IH. destruct HG as [Hedges Hlabels].
  assert (Hmono : ∀ k, k ∈ (g_node G).*1 →
            k ∈ (touch_node (to_table fk)
                   (touch_node (from_table fk) (g_node G))).*1)
    by (intros k Hk; by do 2 apply touch_node_keys_mono).
  assert (Hfrom : from_table fk
            ∈ (touch_node (to_table fk)
                 (touch_node (from_table fk) (g_node G))).*1)
    by apply touch_node_keys_mono, touch_node_keys_self.
  assert (Hto : to_table fk
            ∈ (touch_node (to_table fk)
                 (touch_node (from_table fk) (g_node G))).*1)
    by apply touch_node_keys_self.
  split; simpl.
  - destruct (decide _) as [Hin|Hnin].
    + eapply Forall_impl; [exact Hedges|]. intros e [? ?]. auto.
    + apply Forall_app. split.
      * eapply Forall_impl; [exact Hedges|]. intros e [? ?]. auto.
      * constructor; [done|constructor].
  - apply Forall_forall. intros el [-> |Hel]%elem_of_dict_setitem; [done|].
    destruct (proj1 (Forall_forall _ _) Hlabels el Hel). auto.
Qed.

Lemma schema_graph_closed si :
  graph_closed (schema_graph si).1 (schema_graph si).2.
Proof.
  apply add_fk_closed. split; [|constructor].
  rewrite tables_graph_edges. constructor.
Qed.

Lemma schema_graph_NoDup si : NoDup (g_node (schema_graph si).1).*1.
Proof. apply add_fk_nodes_NoDup, tables_graph_NoDup. constructor. Qed.

(** [G.edges] holds the edges whose source is a node, each as often as the
    graph has it. *)
Lemma elem_of_graph_edges G e :
  e ∈ graph_edges G ↔ e ∈ g_edges G ∧ e.1 ∈ (g_node G).*1.
Proof.
  unfold graph_edges. rewrite list_elem_of_bind. split.
  - intros (nd & [Hsrc He]%list_elem_of_filter & Hnd). split; [done|].
    apply list_elem_of_fmap. by exists nd.
  - intros [He (nd & Hsrc & Hnd)%list_elem_of_fmap]. exists nd.
    split; [|done]. by apply list_elem_of_filter.
Qed.

Lemma graph_edges_NoDup G :
  NoDup (g_node G).*1 → NoDup (g_edges G) → NoDup (graph_edges G).
Proof.
  unfold graph_edges. intros Hnodes Hedges.
  induction (g_node G) as [|nd nodes IH]; csimpl; [constructor|].
  csimpl in Hnodes. apply NoDup_cons in Hnodes as [Hnd Hnodes].
  apply NoDup_app. split; [by apply NoDup_filter|]. split; [|by apply IH].
  intros e [Hsrc _]%list_elem_of_filter
    (nd' & [Hsrc' _]%list_elem_of_filter & Hnd')%list_elem_of_bind.
  apply Hnd. apply list_elem_of_fmap. exists nd'. split; [congruence|done].
Qed.

(** Edges added as b→a, a→b, b→c between the nodes a, b, c are listed
    source by source. *)
Example graph_edges_by_source :
  graph_edges
    (add_edge "b" "c"
       (add_edge "a" "b"
          (add_edge "b" "a"
             (add_node "c" 100 (add_node "b" 100 (add_node "a" 100
                                                    DiGraph_new))))))
  = [("a", "b"); ("b", "a"); ("b", "c")].
Proof. vm_compute. reflexivity. Qed.

Lemma graph_edges_nil G : g_edges G = [] → graph_edges G = [].
Proof.
  unfold graph_edges. intros ->.
  induction (g_node G) as [|nd nodes IH]; [done|]. csimpl. by rewrite IH.
Qed.

(** ** Running the force-directed renderer *)

Lemma mapM_returns {S A B} (g : A → Run S B) (h : A → B) (l : list A) s :
  (∀ x, x ∈ l → g x s = (s, inr (h x))) →
  mapM g l s = (s, inr (h <$> l)).
Proof.
  induction l as [|x l IH]; intros Hg; [done|].
  simpl. run_step. rewrite (Hg x) by left.
  change (mapM g l s) with (mapM g l s). (* folds the loop back *)
  rewrite IH; [done|]. intros y Hy. apply Hg. by right.
Qed.

Lemma zip_fmap_same {A B} (f : A → B) (l : list A) :
  zip l (f <$> l) = (λ x, (x, f x)) <$> l.
Proof. induction l as [|x l IH]; [done|]. csimpl. by rewrite IH. Qed.

Section networkx_run.
Context `{LayoutBackend}.

Lemma networkx_table_loop si l G s :
  Forall (λ t, is_Some (columns si !! t)) l →
  for_each l (networkx_add_table si) G s = (s, inr (tables_graph si l G)).
Proof.
  intros Hl. revert G. induction Hl as [|t l [cols Ht] _ IH]; intros G.
  - done.
  - simpl. run_step. unfold networkx_add_table at 1, lift, getitem.
    run_step. rewrite Ht. simpl. apply IH.
Qed.

Lemma networkx_table_loop_raises si l :
  ¬ Forall (λ t, is_Some (columns si !! t)) l →
  ∃ e, ∀ G s, for_each l (networkx_add_table si) G s = (s, inl e).
Proof.
  induction l as [|t l IH]; intros Hno; [by destruct Hno|].
  destruct (columns si !! t) as [cols|] eqn:Ht.
  - destruct IH as [e He].
    { intros Hl. apply Hno. constructor; [by eauto|done]. }
    exists e. intros G s. simpl. run_step.
    unfold networkx_add_table at 1, lift, getitem. run_step.
    rewrite Ht. apply He.
  - exists (KeyError t). intros G s. simpl. run_step.
    unfold networkx_add_table at 1, lift, getitem. run_step.
    by rewrite Ht.
Qed.

(** The layout has a position for every node of the graph. *)
Lemma layout_lookup (at_ : string → Coord) G n :
  n ∈ (g_node G).*1 → node_positions at_ G !! n = Some (at_ n).
Proof.
  unfold node_positions.
  induction (g_node G) as [|[k a] nodes IH]; csimpl; [by intros ?%elem_of_nil|].
  intros Hn. destruct (decide (k = n)) as [->|Hne].
  - by rewrite lookup_insert_eq.
  - rewrite lookup_insert_ne by done. apply IH.
    by apply elem_of_cons in Hn as [?|?]; [congruence|].
Qed.

Lemma pos_getitem_returns (at_ : string → Coord) G n s :
  n ∈ (g_node G).*1 →
  pos_getitem (node_positions at_ G) n s = (s, inr (at_ n)).
Proof.
  intros Hn. unfold pos_getitem, lift, getitem. by rewrite layout_lookup.
Qed.

Lemma draw_networkx_nodes_returns (at_ : string → Coord) G s :
  draw_networkx_nodes G (node_positions at_ G)
    ((λ nd, default 2000 nd.2) <$> g_node G) s
  = (s, inr ((λ nd, (nd.1, at_ nd.1, default 2000 nd.2)) <$> g_node G)).
Proof.
  unfold draw_networkx_nodes. rewrite zip_fmap_same.
  rewrite (mapM_returns _ (λ ns, (ns.1.1, at_ ns.1.1, ns.2))).
  - by rewrite <-list_fmap_compose.
  - intros ns (nd & -> & Hnd)%list_elem_of_fmap. run_step.
    rewrite pos_getitem_returns; [done|].
    apply list_elem_of_fmap. by exists nd.
Qed.

Lemma draw_networkx_labels_returns (at_ : string → Coord) G s :
  draw_networkx_labels G (node_positions at_ G) s
  = (s, inr ((λ nd, (nd.1, at_ nd.1)) <$> g_node G)).
Proof.
  unfold draw_networkx_labels. apply mapM_returns.
  intros nd Hnd. run_step.
  rewrite pos_getitem_returns; [done|].
  apply list_elem_of_fmap. by exists nd.
Qed.

Lemma draw_networkx_edges_returns (at_ : string → Coord) G labels s :
  graph_closed G labels →
  draw_networkx_edges G (node_positions at_ G) s
  = (s, inr ((λ e, (e.1, e.2, at_ e.1, at_ e.2)) <$> graph_edges G)).
Proof.
  intros [Hedges _]. unfold draw_networkx_edges. apply mapM_returns.
  intros e [He _]%elem_of_graph_edges. destruct (proj1 (Forall_forall _ _) Hedges e He) as [H1 H2].
  run_step. rewrite pos_getitem_returns by done.
  by rewrite pos_getitem_returns.
Qed.

Lemma draw_networkx_edge_labels_returns (at_ : string → Coord) G labels s :
  graph_closed G labels →
  draw_networkx_edge_labels (node_positions at_ G) labels s
  = (s, inr ((λ el, (el.1.1, el.1.2, el.2, at_ el.1.1, at_ el.1.2))
             <$> labels)).
Proof.
  intros [_ Hlabels]. unfold draw_networkx_edge_labels.
  apply mapM_returns.
  intros el Hel.
  destruct (proj1 (Forall_forall _ _) Hlabels el Hel) as [H1 H2].
  run_step. rewrite pos_getitem_returns by done.
  by rewrite pos_getitem_returns.
Qed.

(** With every listed table's columns at hand the renderer returns the
    figure [drawn_figure] describes and uses up one figure number. *)
Lemma generate_erd_networkx_returns si s :
  columns_cover si →
  generate_erd_networkx si s
  = ({| np_random := np_random s; plt_fignum := S (plt_fignum s) |},
     inr (drawn_figure si (S (plt_fignum s)))).
Proof.
  intros Hcover. unfold generate_erd_networkx. run_step.
  rewrite networkx_table_loop by done.
  fold (schema_graph si).
  pose proof (schema_graph_closed si) as Hclosed.
  unfold plt_subplots, spring_layout. cbn [fst snd].
  rewrite draw_networkx_nodes_returns.
  rewrite (draw_networkx_edges_returns _ _ _ _ Hclosed).
  rewrite draw_networkx_labels_returns.
  unfold drawn_figure.
  destruct (schema_graph si).2 as [|el labels] eqn:Hlabels; [done|].
  by rewrite (draw_networkx_edge_labels_returns _ _ _ _ Hclosed).
Qed.

(** A listed table without columns makes it raise, whatever the state. *)
Lemma generate_erd_networkx_raises si :
  ¬ columns_cover si →
  ∃ e, ∀ s, generate_erd_networkx si s = (s, inl e).
Proof.
  intros Hno. destruct (networkx_table_loop_raises si (tables si) Hno) as [e He].
  exists e. intros s. unfold generate_erd_networkx. run_step. by rewrite He.
Qed.
End networkx_run.

Lemma remove_dups_NoDup {A} `{EqDecision A} (l : list A) :
  NoDup l → remove_dups l = l.
Proof.
  induction 1 as [|x l Hx _ IH]; [done|].
  simpl. destruct (decide_rel _ x l); [done|]. by rewrite IH.
Qed.

Lemma NoDup_keys_agree {K V} (d : list (K * V)) k a b :
  NoDup d.*1 → (k, a) ∈ d → (k, b) ∈ d → a = b.
Proof.
  induction d as [|[k' v'] d IH]; csimpl; [by intros _ ?%elem_of_nil|].
  intros [Hk' Hd]%NoDup_cons Ha Hb.
  assert (Hkey : ∀ v, (k, v) ∈ d → k' ≠ k).
  { intros v Hv ->. apply Hk'. apply list_elem_of_fmap. by exists (k, v). }
  apply elem_of_cons in Ha as [[= -> ->]|Ha];
    apply elem_of_cons in Hb as [[= ?]|Hb]; subst.
  - done.
  - by destruct (Hkey b Hb).
  - by destruct (Hkey a Ha).
  - by apply IH.
Qed.

Lemma dot_node_labels_absent si tbls fks u :
  u ∉ tbls →
  ((graphviz_node si <$> tbls) ++ (graphviz_edge <$> fks))
  ≫= (λ st, match st with
            | DotNode n' label _ => if decide (n' = u) then [label] else []
            | DotEdge _ _ _ _ _ => []
            end)
  = [].
Proof.
  intros Hu. rewrite bind_app.
  assert (Hn : (graphviz_node si <$> tbls)
               ≫= (λ st, match st with
                         | DotNode n' label _ =>
                             if decide (n' = u) then [label] else []
                         | DotEdge _ _ _ _ _ => []
                         end) = []).
  { induction tbls as [|t tbls IH]; [done|].
    apply not_elem_of_cons in Hu as [Hne Hu]. csimpl.
    rewrite decide_False by congruence. by apply IH. }
  rewrite Hn. simpl.
  induction fks as [|fk fks IH]; [done|]. csimpl. by rewrite IH.
Qed.

(** ** C5, C6, C8, C9: what the two renderers draw, and where the diagram
    loses a table *)

Section renderer_claims.
Context `{LayoutBackend}.

(** C5: for a model without foreign keys (its listed tables distinct and
    each with its columns entry) both renderers return: the diagram has
    exactly [len(tables)] nodes and no edge statement, the figure has
    exactly [len(tables)] node markers and no arrow. *)
Theorem render_without_foreign_keys si :
  columns_cover si → NoDup (tables si) → foreign_keys si = [] →
  (∃ dot, generate_erd_graphviz si = inr dot
          ∧ length (dot_nodes dot) = length (tables si)
          ∧ dot_edges dot = [])
  ∧ ∀ s, ∃ s' fig, generate_erd_networkx si s = (s', inr fig)
                   ∧ length (fig_markers fig) = length (tables si)
                   ∧ fig_arrows fig = [].
Proof.
  intros Hcover Hnodup Hfks. split.
  - eexists. split; [by apply generate_erd_graphviz_returns|].
    unfold dot_nodes, dot_edges. simpl.
    rewrite dot_names_body, dot_edges_body, Hfks. simpl.
    by rewrite app_nil_r, remove_dups_NoDup.
  - intros s. eexists _, _. split; [by apply generate_erd_networkx_returns|].
    unfold drawn_figure, schema_graph. rewrite Hfks. simpl.
    rewrite graph_edges_nil by apply tables_graph_edges. split; [|done].
    rewrite length_fmap.
    rewrite <-(length_fmap fst), tables_graph_keys; done.
Qed.

(** C6: two calls of [generate_erd_networkx] on the same model, from any
    two interpreter states (in particular one after the other), place the
    nodes at the same coordinates: the layout draws its random numbers
    from a generator seeded with 42, not from the interpreter's. *)
Theorem networkx_layout_repeatable si s1 s1' fig1 s2 s2' fig2 :
  generate_erd_networkx si s1 = (s1', inr fig1) →
  generate_erd_networkx si s2 = (s2', inr fig2) →
  node_coordinates fig1 = node_coordinates fig2.
Proof.
  destruct (decide (columns_cover si)) as [Hcover|Hno].
  - rewrite !generate_erd_networkx_returns by done.
    by intros [= _ <-] [= _ <-].
  - destruct (generate_erd_networkx_raises si Hno) as [e He].
    rewrite He. discriminate.
Qed.

(** C8: the marker drawn for a listed table [t] has size
    [len(columns[t]) * 100], the same factor for every table. *)
Theorem networkx_node_size_proportional si s :
  columns_cover si →
  ∃ s' fig,
    generate_erd_networkx si s = (s', inr fig)
    ∧ ∀ t cols, t ∈ tables si → columns si !! t = Some cols →
        (∃ xy, (t, xy, Z.of_nat (length cols) * 100) ∈ fig_markers fig)
        ∧ ∀ xy size, (t, xy, size) ∈ fig_markers fig →
            size = Z.of_nat (length cols) * 100.
Proof.
  intros Hcover. eexists _, _.
  split; [by apply generate_erd_networkx_returns|].
  intros t cols Ht Hcols.
  assert (Hnode : (t, Some (Z.of_nat (length cols) * 100))
                  ∈ g_node (schema_graph si).1).
  { apply add_fk_nodes_preserved, dict_get_Some.
    rewrite tables_graph_size by done. by rewrite Hcols. }
  unfold drawn_figure. simpl. split.
  - eexists. apply list_elem_of_fmap. eexists. split; [|exact Hnode]. done.
  - intros xy size (nd & [= -> _ ->] & Hnd)%list_elem_of_fmap.
    destruct nd as [k a]. simpl in *.
    by rewrite (NoDup_keys_agree _ _ _ _ (schema_graph_NoDup si) Hnd Hnode).
Qed.

(** X24: when a foreign key names a table that is not listed,
    [generate_erd_networkx] still returns, and the figure has a marker for
    that table, drawn with the default size 2000 since the node has no size
    of its own. *)
Theorem networkx_accepts_unresolved_table si fk u :
  columns_cover si →
  fk ∈ foreign_keys si → u = from_table fk ∨ u = to_table fk →
  u ∉ tables si →
  ∀ s, ∃ s' fig xy, generate_erd_networkx si s = (s', inr fig)
                    ∧ (u, xy, 2000) ∈ fig_markers fig.
Proof.
  intros Hcover Hfk Hu Hnew s.
  assert (Hend : u ∈ fk_endpoints fk).
  { unfold fk_endpoints. destruct Hu as [-> | ->]; [left|right; left]. }
  eexists _, _, _.
  split; [by apply generate_erd_networkx_returns|].
  pose proof (add_fk_endpoints (foreign_keys si)
                (tables_graph si (tables si) DiGraph_new) [] fk u Hfk Hend)
    as Hin.
  fold (schema_graph si) in Hin.
  apply list_elem_of_fmap in Hin as ([k a] & -> & Hnd).
  unfold drawn_figure. simpl.
  apply list_elem_of_fmap. exists (k, a). split; [|exact Hnd].
  apply add_fk_nodes_origin in Hnd as [Hold | Hnone].
  - destruct Hnew. apply (tables_graph_keys_elem_of si).
    apply list_elem_of_fmap. by exists (k, a).
  - simpl in Hnone. by rewrite Hnone.
Qed.
End renderer_claims.

(** X25: when a foreign key names a table that is not listed and whose
    name has no ':', [generate_erd_graphviz] still returns, and the table
    is a node of the diagram without label statement, so without column
    rows. *)
Theorem graphviz_accepts_plain_unresolved_table si fk u :
  columns_cover si →
  fk ∈ foreign_keys si → u = from_table fk ∨ u = to_table fk →
  u ∉ tables si → colon_free u = true →
  ∃ dot, generate_erd_graphviz si = inr dot
         ∧ u ∈ dot_nodes dot ∧ dot_node_labels dot u = [].
Proof.
  intros Hcover Hfk Hu Hnew Hplain.
  eexists. split; [by apply generate_erd_graphviz_returns|].
  unfold dot_nodes, dot_node_labels. simpl. split.
  - rewrite elem_of_remove_dups, dot_names_body, elem_of_app. right.
    apply list_elem_of_bind. exists fk. split; [|done].
    unfold fk_dot_nodes.
    destruct Hu as [<- | <-]; rewrite (quote_edge_colon_free u Hplain);
      [left|right; left].
  - by apply dot_node_labels_absent.
Qed.

(** C9 (evaluation at the failing input): the foreign key of the sample
    points to [other.x:y], which is not listed; the diagram is returned, but
    the names its statements mention are [public.orders] and [other.x]: the
    unresolved table is not among its nodes. *)
Theorem graphviz_unresolved_table_with_colon_is_no_node :
  match generate_erd_graphviz colon_dangling_schema_info with
  | inr dot =>
      dot_nodes dot = ["public.orders"; "other.x"]
      ∧ "other.x:y" ∉ dot_nodes dot
  | inl _ => False
  end.
Proof.
  vm_compute. split; [done|].
  intros Hin. repeat (apply elem_of_cons in Hin as [Hin|Hin]; [discriminate|]).
  by apply elem_of_nil in Hin.
Qed.

Lemma render_without_foreign_keys_witness :
  columns_cover isolated_schema_info
  ∧ NoDup (tables isolated_schema_info)
  ∧ foreign_keys isolated_schema_info = []
  ∧ (∃ dot, generate_erd_graphviz isolated_schema_info = inr dot
            ∧ length (dot_nodes dot) = length (tables isolated_schema_info)
            ∧ dot_edges dot = [])
  ∧ ∀ s, ∃ s' fig,
      @generate_erd_networkx toy_backend isolated_schema_info s = (s', inr fig)
      ∧ length (fig_markers fig) = length (tables isolated_schema_info)
      ∧ fig_arrows fig = [].
Proof.
  assert (Hcover : columns_cover isolated_schema_info)
    by (apply (bool_decide_unpack _); vm_compute; exact I).
  assert (Hnodup : NoDup (tables isolated_schema_info))
    by (apply (bool_decide_unpack _); vm_compute; exact I).
  assert (Hfks : foreign_keys isolated_schema_info = []) by reflexivity.
  split; [exact Hcover|]. split; [exact Hnodup|]. split; [exact Hfks|].
  exact (@render_without_foreign_keys toy_backend isolated_schema_info
           Hcover Hnodup Hfks).
Defined.

Lemma networkx_layout_repeatable_witness :
  @generate_erd_networkx toy_backend demo_schema_info toy_state
  = (toy_state1, inr (@drawn_figure toy_backend demo_schema_info 1))
  ∧ @generate_erd_networkx toy_backend demo_schema_info toy_state1
    = (toy_state2, inr (@drawn_figure toy_backend demo_schema_info 2))
  ∧ node_coordinates (@drawn_figure toy_backend demo_schema_info 1)
    = node_coordinates (@drawn_figure toy_backend demo_schema_info 2).
Proof.
  assert (H1 : @generate_erd_networkx toy_backend demo_schema_info toy_state
               = (toy_state1, inr (@drawn_figure toy_backend demo_schema_info 1)))
    by (vm_compute; reflexivity).
  assert (H2 : @generate_erd_networkx toy_backend demo_schema_info toy_state1
               = (toy_state2, inr (@drawn_figure toy_backend demo_schema_info 2)))
    by (vm_compute; reflexivity).
  split; [exact H1|]. split; [exact H2|].
  exact (@networkx_layout_repeatable toy_backend demo_schema_info
           _ _ _ _ _ _ H1 H2).
Defined.

(** The seed is what makes the layout repeatable: with [seed=None] the same
    call reads numpy's global generator, and on the stand-in backend two
    interpreter states give two different positions. *)
Example unseeded_layout_depends_on_generator :
  match (@spring_layout toy_backend (add_node "t" 100 DiGraph_new) 3 50 None
           toy_state).2,
        (@spring_layout toy_backend (add_node "t" 100 DiGraph_new) 3 50 None
           toy_state_reseeded).2 with
  | inr pos1, inr pos2 => pos1 !! "t" ≠ pos2 !! "t"
  | _, _ => False
  end.
Proof. vm_compute. discriminate. Qed.

Example seeded_layout_ignores_generator :
  (@spring_layout toy_backend (add_node "t" 100 DiGraph_new) 3 50 (Some 42)
     toy_state).2
  = (@spring_layout toy_backend (add_node "t" 100 DiGraph_new) 3 50 (Some 42)
       toy_state_reseeded).2.
Proof. reflexivity. Qed.

Lemma networkx_node_size_proportional_witness :
  columns_cover demo_schema_info
  ∧ ∃ s' fig,
      @generate_erd_networkx toy_backend demo_schema_info toy_state
      = (s', inr fig)
      ∧ ∀ t cols, t ∈ tables demo_schema_info →
          columns demo_schema_info !! t = Some cols →
          (∃ xy, (t, xy, Z.of_nat (length cols) * 100) ∈ fig_markers fig)
          ∧ ∀ xy size, (t, xy, size) ∈ fig_markers fig →
              size = Z.of_nat (length cols) * 100.
Proof.
  assert (Hcover : columns_cover demo_schema_info)
    by (apply (bool_decide_unpack _); vm_compute; exact I).
  split; [exact Hcover|].
  exact (@networkx_node_size_proportional toy_backend demo_schema_info
           toy_state Hcover).
Defined.

Lemma networkx_accepts_unresolved_table_witness :
  columns_cover dangling_schema_info
  ∧ {| from_table := "public.orders"; from_column := "owner";
       to_table := "pg_catalog.pg_authid"; to_column := "oid" |}
    ∈ foreign_keys dangling_schema_info
  ∧ ("pg_catalog.pg_authid" ∉ tables dangling_schema_info)
  ∧ ∀ s, ∃ s' fig xy,
      @generate_erd_networkx toy_backend dangling_schema_info s = (s', inr fig)
      ∧ ("pg_catalog.pg_authid", xy, 2000) ∈ fig_markers fig.
Proof.
  assert (Hcover : columns_cover dangling_schema_info)
    by (apply (bool_decide_unpack _); vm_compute; exact I).
  assert (Hfk : {| from_table := "public.orders"; from_column := "owner";
                   to_table := "pg_catalog.pg_authid"; to_column := "oid" |}
                ∈ foreign_keys dangling_schema_info) by (simpl; left).
  assert (Hnew : "pg_catalog.pg_authid" ∉ tables dangling_schema_info)
    by (apply (bool_decide_unpack _); vm_compute; exact I).
  split; [exact Hcover|]. split; [exact Hfk|]. split; [exact Hnew|].
  exact (@networkx_accepts_unresolved_table toy_backend dangling_schema_info
           _ "pg_catalog.pg_authid" Hcover Hfk (or_intror eq_refl) Hnew).
Defined.

Lemma graphviz_accepts_plain_unresolved_table_witness :
  columns_cover dangling_schema_info
  ∧ {| from_table := "public.orders"; from_column := "owner";
       to_table := "pg_catalog.pg_authid"; to_column := "oid" |}
    ∈ foreign_keys dangling_schema_info
  ∧ ("pg_catalog.pg_authid" ∉ tables dangling_schema_info)
  ∧ colon_free "pg_catalog.pg_authid" = true
  ∧ ∃ dot, generate_erd_graphviz dangling_schema_info = inr dot
           ∧ "pg_catalog.pg_authid" ∈ dot_nodes dot
           ∧ dot_node_labels dot "pg_catalog.pg_authid" = [].
Proof.
  assert (Hcover : columns_cover dangling_schema_info)
    by (apply (bool_decide_unpack _); vm_compute; exact I).
  assert (Hfk : {| from_table := "public.orders"; from_column := "owner";
                   to_table := "pg_catalog.pg_authid"; to_column := "oid" |}
                ∈ foreign_keys dangling_schema_info) by (simpl; left).
  assert (Hnew : "pg_catalog.pg_authid" ∉ tables dangling_schema_info)
    by (apply (bool_decide_unpack _); vm_compute; exact I).
  assert (Hplain : colon_free "pg_catalog.pg_authid" = true) by reflexivity.
  split; [exact Hcover|]. split; [exact Hfk|]. split; [exact Hnew|].
  split; [exact Hplain|].
  exact (graphviz_accepts_plain_unresolved_table dangling_schema_info
           _ "pg_catalog.pg_authid" Hcover Hfk (or_intror eq_refl) Hnew Hplain).
Defined.

(** The sample models, rendered. *)
Example demo_diagram_edges :
  match generate_erd_graphviz demo_schema_info with
  | inr dot =>
      dot_edges dot
      = [DotEdge (plain_endpoint "public.orders")
                 (plain_endpoint "public.customers") "customer_id → id"
                 "blue" "10"]
  | inl _ => False
  end.
Proof. vm_compute. reflexivity. Qed.

(** * Further properties of the code *)

(** ** Loops over a list in two parts *)

Lemma for_each_app {S A B} (body : A → B → Run S B) (l1 l2 : list A) acc s :
  for_each (l1 ++ l2) body acc s
  = match for_each l1 body acc s with
    | (s', inr acc') => for_each l2 body acc' s'
    | (s', inl e) => (s', inl e)
    end.
Proof.
  revert acc s. induction l1 as [|x l1 IH]; intros acc s; [done|].
  simpl. run_step. destruct (body x acc s) as [s1 [e|acc1]]; [done|]. apply IH.
Qed.

(** ** Extraction: the connection, the first failure *)

(** X1: a call that returns has opened one connection, closed it, and left the
    earlier connections and the server as they were. *)
Theorem extraction_success_closes_its_connection p w w' m :
  get_postgres_schema_with_relations p w = (w', inr m) →
  w' = {| server := server w; connections := connections w ++ [false] |}.
Proof. by intros (_ & -> & _)%extraction_inr. Qed.

Lemma extraction_success_closes_its_connection_witness :
  get_postgres_schema_with_relations demo_params demo_world
  = ({| server := demo_server; connections := [false] |}, inr demo_schema_info)
  ∧ {| server := demo_server; connections := [false] |}
    = {| server := server demo_world;
         connections := connections demo_world ++ [false] |}.
Proof.
  assert (Hrun : get_postgres_schema_with_relations demo_params demo_world
                 = ({| server := demo_server; connections := [false] |},
                    inr demo_schema_info))
    by (vm_compute; reflexivity).
  split; [exact Hrun|].
  exact (extraction_success_closes_its_connection demo_params demo_world _
           demo_schema_info Hrun).
Defined.

Lemma extract_table_first_rejection cursor row si w e :
  first_rejection (server w) row = Some e →
  extract_table cursor row si w = (w, inl e).
Proof.
  unfold first_rejection, extract_table. run_step.
  destruct (srv_rejects _ _ (SelectColumns _ _)); [by intros [= ->]|]. run_step.
  destruct (srv_rejects _ _ (SelectPrimaryKeys _ _)); [by intros [= ->]|]. run_step.
  destruct (srv_rejects _ _ (SelectForeignKeys _ _)); [by intros [= ->]|]. run_step.
  by intros ->.
Qed.

(** X2: the exception a call raises is that of the first statement the server
    rejects, in program order: with the tables before [row] accepted and a
    statement of [row]'s round rejected with [e], the call raises [e] (after
    the connection was made, and without closing it). *)
Theorem first_rejected_statement_propagates p w pre row post e :
  srv_refuses (server w) p = None →
  srv_rejects (server w) _ SelectTables = None →
  select_tables (srv_catalog (server w)) = pre ++ row :: post →
  Forall (table_accepted (server w)) pre →
  first_rejection (server w) row = Some e →
  get_postgres_schema_with_relations p w
  = ({| server := server w; connections := connections w ++ [true] |}, inl e).
Proof.
  intros Hconn Htables Hrows Hpre Hrow.
  unfold get_postgres_schema_with_relations, psycopg2_connect, conn_cursor.
  run_step. rewrite Hconn. simpl. rewrite execute_fetchall_spec. simpl.
  rewrite Htables, Hrows, for_each_app.
  rewrite table_loop_accepted by done. simpl. run_step.
  by rewrite (extract_table_first_rejection _ _ _ _ e).
Qed.

Lemma first_rejected_statement_propagates_witness :
  srv_refuses (server flaky_world) demo_params = None
  ∧ srv_rejects (server flaky_world) _ SelectTables = None
  ∧ select_tables (srv_catalog (server flaky_world))
    = [("public", "customers")] ++ ("public", "orders") :: []
  ∧ Forall (table_accepted (server flaky_world)) [("public", "customers")]
  ∧ first_rejection (server flaky_world) ("public", "orders")
    = Some (DatabaseError "canceling statement due to statement timeout")
  ∧ get_postgres_schema_with_relations demo_params flaky_world
    = ({| server := server flaky_world;
          connections := connections flaky_world ++ [true] |},
       inl (DatabaseError "canceling statement due to statement timeout")).
Proof.
  assert (H1 : srv_refuses (server flaky_world) demo_params = None)
    by reflexivity.
  assert (H2 : srv_rejects (server flaky_world) _ SelectTables = None)
    by reflexivity.
  assert (H3 : select_tables (srv_catalog (server flaky_world))
               = [("public", "customers")] ++ ("public", "orders") :: [])
    by (vm_compute; reflexivity).
  assert (H4 : Forall (table_accepted (server flaky_world))
                      [("public", "customers")])
    by (apply (bool_decide_unpack _); vm_compute; exact I).
  assert (H5 : first_rejection (server flaky_world) ("public", "orders")
               = Some (DatabaseError
                         "canceling statement due to statement timeout"))
    by (vm_compute; reflexivity).
  split; [exact H1|]. split; [exact H2|]. split; [exact H3|].
  split; [exact H4|]. split; [exact H5|].
  exact (first_rejected_statement_propagates demo_params flaky_world
           _ _ _ _ H1 H2 H3 H4 H5).
Defined.

(** X3: the load button with a server that refuses the connection: nothing is
    opened, the session keeps what it held, and the page shows the server's
    error. *)
Theorem load_button_refused_connection p pg e :
  srv_refuses (server (page_world pg)) p = Some e →
  load_schema_button p pg
  = {| page_world := page_world pg;
       session_schema_info := session_schema_info pg;
       page_messages := page_messages pg ++ [StError e] |}.
Proof.
  intros Hconn.
  unfold load_schema_button, get_postgres_schema_with_relations,
    psycopg2_connect.
  run_step. by rewrite Hconn.
Qed.

Lemma load_button_refused_connection_witness :
  srv_refuses (server (page_world unreachable_page)) demo_params
  = Some (OperationalError "could not connect to server")
  ∧ load_schema_button demo_params unreachable_page
    = {| page_world := page_world unreachable_page;
         session_schema_info := session_schema_info unreachable_page;
         page_messages :=
           page_messages unreachable_page
           ++ [StError (OperationalError "could not connect to server")] |}.
Proof.
  assert (Hconn : srv_refuses (server (page_world unreachable_page)) demo_params
                  = Some (OperationalError "could not connect to server"))
    by reflexivity.
  split; [exact Hconn|].
  exact (load_button_refused_connection demo_params unreachable_page _ Hconn).
Defined.

(** ** Extraction: the table listing and the keys of the dicts *)

#[global] Instance tables_le_total : Total tables_le.
Proof.
  intros a b. unfold tables_le.
  rewrite (String.compare_antisym (t_table_schema b) (t_table_schema a)).
  destruct (String.compare (t_table_schema a) (t_table_schema b)); simpl;
    [apply String.leb_total | by left | by right].
Qed.

Lemma indexes_table_entries cat si row :
  indexes (table_entries cat si row)
  = <[row.1 +:+ "." +:+ row.2 :=
        index_of_row <$> select_indexes cat row.1 row.2]> (indexes si).
Proof. done. Qed.

Lemma extracted_tables cat l :
  tables (foldl (table_entries cat) empty_schema_info l) = full_name <$> l.
Proof.
  induction l as [|row l IH] using rev_ind; [done|].
  by rewrite foldl_snoc, tables_table_entries, IH, fmap_app.
Qed.

(** The keys of the three per-table dicts are the listed tables. *)
Lemma extracted_domains cat l t :
  (t ∈ tables (foldl (table_entries cat) empty_schema_info l)
   ↔ is_Some (columns (foldl (table_entries cat) empty_schema_info l) !! t))
  ∧ (t ∈ tables (foldl (table_entries cat) empty_schema_info l)
     ↔ is_Some (primary_keys
                  (foldl (table_entries cat) empty_schema_info l) !! t))
  ∧ (t ∈ tables (foldl (table_entries cat) empty_schema_info l)
     ↔ is_Some (indexes (foldl (table_entries cat) empty_schema_info l) !! t)).
Proof.
  induction l as [|row l IH] using rev_ind.
  - simpl. rewrite !lookup_empty, elem_of_nil.
    repeat split; try done; by intros [? ?].
  - rewrite foldl_snoc, tables_table_entries, columns_table_entries,
      primary_keys_table_entries, indexes_table_entries.
    rewrite elem_of_app, list_elem_of_singleton, !lookup_insert_is_Some'.
    destruct IH as (-> & Hpk & Hidx). rewrite <-Hpk, <-Hidx.
    repeat split; intros [?|?]; auto.
Qed.



(** X5: in a returned model a name is a key of [columns], of [primary_keys] and
    of [indexes] exactly when it is a listed table. *)
Theorem extracted_dict_keys p w w' m t :
  get_postgres_schema_with_relations p w = (w', inr m) →
  (t ∈ tables m ↔ is_Some (columns m !! t))
  ∧ (t ∈ tables m ↔ is_Some (primary_keys m !! t))
  ∧ (t ∈ tables m ↔ is_Some (indexes m !! t)).
Proof. intros (_ & _ & ->)%extraction_inr. apply extracted_domains. Qed.

Lemma extracted_dict_keys_witness :
  get_postgres_schema_with_relations demo_params demo_world
  = ({| server := demo_server; connections := [false] |}, inr demo_schema_info)
  ∧ ("pg_catalog.pg_class" ∈ tables demo_schema_info
     ↔ is_Some (columns demo_schema_info !! "pg_catalog.pg_class"))
  ∧ ("pg_catalog.pg_class" ∈ tables demo_schema_info
     ↔ is_Some (primary_keys demo_schema_info !! "pg_catalog.pg_class"))
  ∧ ("pg_catalog.pg_class" ∈ tables demo_schema_info
     ↔ is_Some (indexes demo_schema_info !! "pg_catalog.pg_class")).
Proof.
  assert (Hrun : get_postgres_schema_with_relations demo_params demo_world
                 = ({| server := demo_server; connections := [false] |},
                    inr demo_schema_info))
    by (vm_compute; reflexivity).
  split; [exact Hrun|].
  exact (extracted_dict_keys demo_params demo_world _ demo_schema_info
           "pg_catalog.pg_class" Hrun).
Defined.

(** X6: every foreign key of a returned model is owned by a listed table (the
    table it points to need not be listed). *)
Theorem extracted_foreign_key_owner_listed p w w' m fk :
  get_postgres_schema_with_relations p w = (w', inr m) →
  fk ∈ foreign_keys m → from_table fk ∈ tables m.
Proof.
  intros (_ & _ & ->)%extraction_inr. revert fk.
  apply (foldl_table_entries_inv (srv_catalog (server w))
           (λ si, ∀ fk, fk ∈ foreign_keys si → from_table fk ∈ tables si)).
  - intros si row Hsi fk.
    rewrite foreign_keys_table_entries, tables_table_entries, !elem_of_app.
    intros [Hfk | (r & -> & _)%list_elem_of_fmap]; [left; by apply Hsi|].
    right. simpl. left.
  - by intros fk ?%elem_of_nil.
Qed.

Lemma extracted_foreign_key_owner_listed_witness :
  get_postgres_schema_with_relations demo_params demo_world
  = ({| server := demo_server; connections := [false] |}, inr demo_schema_info)
  ∧ {| from_table := "public.orders"; from_column := "customer_id";
       to_table := "public.customers"; to_column := "id" |}
    ∈ foreign_keys demo_schema_info
  ∧ "public.orders" ∈ tables demo_schema_info.
Proof.
  assert (Hrun : get_postgres_schema_with_relations demo_params demo_world
                 = ({| server := demo_server; connections := [false] |},
                    inr demo_schema_info))
    by (vm_compute; reflexivity).
  assert (Hfk : {| from_table := "public.orders"; from_column := "customer_id";
                   to_table := "public.customers"; to_column := "id" |}
                ∈ foreign_keys demo_schema_info) by (vm_compute; left).
  split; [exact Hrun|]. split; [exact Hfk|].
  exact (extracted_foreign_key_owner_listed demo_params demo_world _
           demo_schema_info _ Hrun Hfk).
Defined.

(** When the qualified names of the listed tables are pairwise distinct,
    each listed table finds under its name the rows of its own three
    queries. *)
Lemma extracted_lookup cat l row :
  NoDup (full_name <$> l) → row ∈ l →
  columns (foldl (table_entries cat) empty_schema_info l) !! full_name row
  = Some (column_of_row <$> select_columns cat row.1 row.2)
  ∧ primary_keys (foldl (table_entries cat) empty_schema_info l)
    !! full_name row
    = Some (select_primary_keys cat row.1 row.2)
  ∧ indexes (foldl (table_entries cat) empty_schema_info l) !! full_name row
    = Some (index_of_row <$> select_indexes cat row.1 row.2).
Proof.
  induction l as [|x l IH] using rev_ind; [by intros _ ?%elem_of_nil|].
  rewrite fmap_app. intros [Hl [Hx _]]%NoDup_app Hrow.
  rewrite foldl_snoc, columns_table_entries, primary_keys_table_entries,
    indexes_table_entries.
  fold (full_name x).
  destruct (decide (full_name x = full_name row)) as [Heq|Hne].
  - rewrite Heq, !lookup_insert_eq.
    apply elem_of_app in Hrow as [Hrow | ->%list_elem_of_singleton]; [|done].
    destruct (Hx (full_name row)); [by apply list_elem_of_fmap_2|].
    rewrite <-Heq. left.
  - rewrite !lookup_insert_ne by done. apply IH; [done|].
    apply elem_of_app in Hrow as [? | ->%list_elem_of_singleton]; done.
Qed.

(** X7: when the qualified names of the listed tables are pairwise distinct,
    columns[schema.table], primary_keys[schema.table] and
    indexes[schema.table] hold exactly the rows of that table's own column,
    primary-key and index queries. *)
Theorem extracted_entries_of_listed_table p w w' m schema table :
  get_postgres_schema_with_relations p w = (w', inr m) →
  NoDup (tables m) →
  (schema, table) ∈ select_tables (srv_catalog (server w)) →
  columns m !! (schema +:+ "." +:+ table)
  = Some (column_of_row
          <$> select_columns (srv_catalog (server w)) schema table)
  ∧ primary_keys m !! (schema +:+ "." +:+ table)
    = Some (select_primary_keys (srv_catalog (server w)) schema table)
  ∧ indexes m !! (schema +:+ "." +:+ table)
    = Some (index_of_row
            <$> select_indexes (srv_catalog (server w)) schema table).
Proof.
  intros (_ & _ & ->)%extraction_inr. rewrite extracted_tables.
  intros Hnodup Hrow.
  exact (extracted_lookup _ _ (schema, table) Hnodup Hrow).
Qed.

Lemma extracted_entries_of_listed_table_witness :
  get_postgres_schema_with_relations demo_params demo_world
  = ({| server := demo_server; connections := [false] |}, inr demo_schema_info)
  ∧ NoDup (tables demo_schema_info)
  ∧ ("public", "orders") ∈ select_tables (srv_catalog (server demo_world))
  ∧ columns demo_schema_info !! ("public" +:+ "." +:+ "orders")
    = Some (column_of_row
            <$> select_columns (srv_catalog (server demo_world))
                  "public" "orders")
  ∧ primary_keys demo_schema_info !! ("public" +:+ "." +:+ "orders")
    = Some (select_primary_keys (srv_catalog (server demo_world))
              "public" "orders")
  ∧ indexes demo_schema_info !! ("public" +:+ "." +:+ "orders")
    = Some (index_of_row
            <$> select_indexes (srv_catalog (server demo_world))
                  "public" "orders").
Proof.
  assert (Hrun : get_postgres_schema_with_relations demo_params demo_world
                 = ({| server := demo_server; connections := [false] |},
                    inr demo_schema_info))
    by (vm_compute; reflexivity).
  assert (Hnodup : NoDup (tables demo_schema_info))
    by (apply (bool_decide_unpack _); vm_compute; exact I).
  assert (Hrow : ("public", "orders")
                 ∈ select_tables (srv_catalog (server demo_world)))
    by (vm_compute; right; left).
  split; [exact Hrun|]. split; [exact Hnodup|]. split; [exact Hrow|].
  exact (extracted_entries_of_listed_table demo_params demo_world _
           demo_schema_info "public" "orders" Hrun Hnodup Hrow).
Defined.

(** X8: tab "Таблицы" on a returned model: every listed table has a
    [primary_keys] entry, so the tab writes the names joined by ", " (the
    empty text for a table without primary key) and never takes the branch
    that writes "Нет". *)
Theorem extracted_primary_keys_text p w w' m t :
  get_postgres_schema_with_relations p w = (w', inr m) →
  t ∈ tables m →
  ∃ pks, primary_keys m !! t = Some pks
         ∧ primary_keys_text m t = String.concat ", " pks.
Proof.
  intros (_ & _ & ->)%extraction_inr Ht.
  destruct (extracted_domains (srv_catalog (server w))
              (select_tables (srv_catalog (server w))) t) as (_ & Hpk & _).
  destruct (proj1 Hpk Ht) as [pks Hpks]. exists pks. split; [done|].
  unfold primary_keys_text. by rewrite Hpks.
Qed.

Lemma extracted_primary_keys_text_witness :
  get_postgres_schema_with_relations demo_params composite_world
  = ({| server := server composite_world; connections := [false] |},
     inr composite_schema_info)
  ∧ "public.shipments" ∈ tables composite_schema_info
  ∧ ∃ pks, primary_keys composite_schema_info !! "public.shipments" = Some pks
           ∧ primary_keys_text composite_schema_info "public.shipments"
             = String.concat ", " pks.
Proof.
  assert (Hrun : get_postgres_schema_with_relations demo_params composite_world
                 = ({| server := server composite_world;
                       connections := [false] |},
                    inr composite_schema_info))
    by (vm_compute; reflexivity).
  assert (Ht : "public.shipments" ∈ tables composite_schema_info)
    by (apply (bool_decide_unpack _); vm_compute; exact I).
  split; [exact Hrun|]. split; [exact Ht|].
  exact (extracted_primary_keys_text demo_params composite_world _
           composite_schema_info "public.shipments" Hrun Ht).
Defined.

(** ** The hierarchical diagram: missing columns, statements, labels *)

(** X9: a listed table without a [columns] entry makes [generate_erd_graphviz]
    raise [KeyError] for the first such table of the list. *)
Theorem graphviz_missing_columns_key_error si pre t post :
  tables si = pre ++ t :: post →
  Forall (λ t', is_Some (columns si !! t')) pre →
  columns si !! t = None →
  generate_erd_graphviz si = inl (KeyError t).
Proof.
  intros Htables Hpre Hnone.
  unfold generate_erd_graphviz, dot_attr, modify. run_step.
  rewrite Htables, for_each_app, graphviz_table_loop by done.
  simpl. run_step. unfold graphviz_add_table at 1, getitem.
  by rewrite Hnone.
Qed.

Lemma graphviz_missing_columns_key_error_witness :
  tables uncovered_schema_info
  = ["public.customers"] ++ "public.ghost" :: ["public.notes"]
  ∧ Forall (λ t', is_Some (columns uncovered_schema_info !! t'))
           ["public.customers"]
  ∧ columns uncovered_schema_info !! "public.ghost" = None
  ∧ generate_erd_graphviz uncovered_schema_info
    = inl (KeyError "public.ghost").
Proof.
  assert (H1 : tables uncovered_schema_info
               = ["public.customers"] ++ "public.ghost" :: ["public.notes"])
    by reflexivity.
  assert (H2 : Forall (λ t', is_Some (columns uncovered_schema_info !! t'))
                      ["public.customers"])
    by (apply (bool_decide_unpack _); vm_compute; exact I).
  assert (H3 : columns uncovered_schema_info !! "public.ghost" = None)
    by (vm_compute; reflexivity).
  split; [exact H1|]. split; [exact H2|]. split; [exact H3|].
  exact (graphviz_missing_columns_key_error uncovered_schema_info
           _ _ _ H1 H2 H3).
Defined.

(** X10: the diagram of a model whose listed tables all have columns: left
    to right, one [plaintext] node statement per listed table in list order
    (a table listed twice is stated twice), then one edge statement per
    foreign key in list order, between the endpoints graphviz reads out of
    [from_table] and [to_table], labelled "from_column → to_column", blue,
    font size 10. *)
Theorem graphviz_diagram_statements si :
  columns_cover si →
  ∃ dot,
    generate_erd_graphviz si = inr dot
    ∧ dot_graph_attr dot = [("rankdir", "LR"); ("size", "12,8")]
    ∧ dot_body dot
      = ((λ t, DotNode t (table_label si t (default [] (columns si !! t)))
                       "plaintext") <$> tables si)
        ++ ((λ fk, DotEdge (quote_edge (from_table fk))
                           (quote_edge (to_table fk))
                           (from_column fk +:+ " → " +:+ to_column fk)
                           "blue" "10") <$> foreign_keys si).
Proof.
  intros Hcover. eexists. split; [by apply generate_erd_graphviz_returns|].
  done.
Qed.

Lemma graphviz_diagram_statements_witness :
  columns_cover colon_schema_info
  ∧ ∃ dot,
      generate_erd_graphviz colon_schema_info = inr dot
      ∧ dot_graph_attr dot = [("rankdir", "LR"); ("size", "12,8")]
      ∧ dot_body dot
        = ((λ t, DotNode t (table_label colon_schema_info t
                              (default [] (columns colon_schema_info !! t)))
                         "plaintext") <$> tables colon_schema_info)
          ++ ((λ fk, DotEdge (quote_edge (from_table fk))
                             (quote_edge (to_table fk))
                             (from_column fk +:+ " → " +:+ to_column fk)
                             "blue" "10") <$> foreign_keys colon_schema_info).
Proof.
  assert (Hcover : columns_cover colon_schema_info)
    by (apply (bool_decide_unpack _); vm_compute; exact I).
  split; [exact Hcover|].
  exact (graphviz_diagram_statements colon_schema_info Hcover).
Defined.

(** X26: when no foreign key has a ':' in its [from_table] or [to_table],
    the edge statements of the diagram are, in order and without merging,
    one per foreign key, from the node named [from_table] to the node named
    [to_table] (the names the node statements of these tables carry),
    labelled "from_column → to_column". *)
Theorem graphviz_edges_of_plain_names si :
  columns_cover si →
  Forall (λ fk, colon_free (from_table fk) = true
                ∧ colon_free (to_table fk) = true) (foreign_keys si) →
  ∃ dot, generate_erd_graphviz si = inr dot
         ∧ dot_edges dot
           = (λ fk, DotEdge (plain_endpoint (from_table fk))
                            (plain_endpoint (to_table fk))
                            (from_column fk +:+ " → " +:+ to_column fk)
                            "blue" "10")
             <$> foreign_keys si.
Proof.
  intros Hcover Hplain. eexists.
  split; [by apply generate_erd_graphviz_returns|].
  unfold dot_edges. simpl. rewrite dot_edges_body.
  induction Hplain as [|fk fks [Hfrom Hto] _ IH]; [done|]. csimpl.
  rewrite IH. unfold graphviz_edge at 1.
  by rewrite (quote_edge_colon_free _ Hfrom), (quote_edge_colon_free _ Hto).
Qed.

Lemma graphviz_edges_of_plain_names_witness :
  columns_cover demo_schema_info
  ∧ Forall (λ fk, colon_free (from_table fk) = true
                  ∧ colon_free (to_table fk) = true)
           (foreign_keys demo_schema_info)
  ∧ ∃ dot, generate_erd_graphviz demo_schema_info = inr dot
           ∧ dot_edges dot
             = (λ fk, DotEdge (plain_endpoint (from_table fk))
                              (plain_endpoint (to_table fk))
                              (from_column fk +:+ " → " +:+ to_column fk)
                              "blue" "10")
               <$> foreign_keys demo_schema_info.
Proof.
  assert (Hcover : columns_cover demo_schema_info)
    by (apply (bool_decide_unpack _); vm_compute; exact I).
  assert (Hplain : Forall (λ fk, colon_free (from_table fk) = true
                                 ∧ colon_free (to_table fk) = true)
                          (foreign_keys demo_schema_info))
    by (apply (bool_decide_unpack _); vm_compute; exact I).
  split; [exact Hcover|]. split; [exact Hplain|].
  exact (graphviz_edges_of_plain_names demo_schema_info Hcover Hplain).
Defined.

(** ** The force-directed figure: missing columns, nodes, arrows, labels *)

Lemma touch_node_keys_origin n (d : list (string * option Z)) k :
  k ∈ (touch_node n d).*1 → k ∈ d.*1 ∨ k = n.
Proof.
  rewrite touch_node_keys. destruct (decide _); [by left|].
  intros [? | ->%list_elem_of_singleton]%elem_of_app; [by left|by right].
Qed.

Lemma add_fk_keys_origin fks G labels k :
  k ∈ (g_node (foldl networkx_add_fk (G, labels) fks).1).*1 →
  k ∈ (g_node G).*1 ∨ ∃ fk, fk ∈ fks ∧ k ∈ fk_endpoints fk.
Proof.
  revert G labels. induction fks as [|fk fks IH]; intros G labels; [by left|].
  simpl. intros [Hk|(fk' & ? & ?)]%IH.
  - simpl in Hk. apply touch_node_keys_origin in Hk as [Hk | ->].
    + apply touch_node_keys_origin in Hk as [Hk | ->]; [by left|].
      right. exists fk. split; [left|]. unfold fk_endpoints. left.
    + right. exists fk. split; [left|]. unfold fk_endpoints. right. left.
  - right. exists fk'. split; [by right|done].
Qed.

Lemma add_fk_edges fks G labels :
  NoDup (g_edges G) →
  NoDup (g_edges (foldl networkx_add_fk (G, labels) fks).1)
  ∧ ∀ e, e ∈ g_edges (foldl networkx_add_fk (G, labels) fks).1
         ↔ e ∈ g_edges G ∨ ∃ fk, fk ∈ fks ∧ e = fk_pair fk.
Proof.
  revert G labels. induction fks as [|fk fks IH]; intros G labels HG.
  - simpl. split; [done|]. intros e. split; [by left|].
    by intros [?|(? & ?%elem_of_nil & _)].
  - simpl.
    set (G' := add_edge (from_table fk) (to_table fk) G).
    assert (HG' : NoDup (g_edges G')).
    { simpl. destruct (decide _) as [Hin|Hnin]; [done|].
      apply NoDup_app. split; [done|]. split; [|apply NoDup_singleton].
      intros x Hx ->%list_elem_of_singleton. done. }
    assert (Hmem : ∀ e, e ∈ g_edges G' ↔ e ∈ g_edges G ∨ e = fk_pair fk).
    { intros e. simpl. unfold fk_pair. destruct (decide _) as [Hin|Hnin].
      - split; [by left|]. by intros [?| ->].
      - rewrite elem_of_app, list_elem_of_singleton. done. }
    destruct (IH G' (dict_setitem (from_table fk, to_table fk) (fk_label fk)
                       labels) HG') as [Hnd Hiff].
    split; [exact Hnd|]. intros e.
    etransitivity; [exact (Hiff e)|]. rewrite Hmem. split.
    + intros [[?| ->]|(fk' & ? & ->)].
      * by left.
      * right. exists fk. split; [left|done].
      * right. exists fk'. split; [by right|done].
    + intros [?|(fk' & [-> | ?]%elem_of_cons & ->)].
      * left. by left.
      * left. by right.
      * right. by exists fk'.
Qed.

Lemma add_fk_labels_NoDup fks G (labels : list (string * string * string)) :
  NoDup labels.*1 → NoDup (foldl networkx_add_fk (G, labels) fks).2.*1.
Proof.
  revert G labels. induction fks as [|fk fks IH]; intros G labels Hl; [done|].
  simpl. apply IH. by apply dict_setitem_NoDup.
Qed.

Lemma add_fk_labels_untouched fks G (labels : list (string * string * string)) k :
  Forall (λ fk, fk_pair fk ≠ k) fks →
  dict_get k (foldl networkx_add_fk (G, labels) fks).2 = dict_get k labels.
Proof.
  intros Hfks. revert G labels.
  induction Hfks as [|fk fks Hfk _ IH]; intros G labels; [done|].
  etransitivity;
    [exact (IH (add_edge (from_table fk) (to_table fk) G)
               (dict_setitem (fk_pair fk) (fk_label fk) labels))|].
  rewrite dict_get_setitem. by rewrite decide_False.
Qed.

Lemma schema_graph_keys si k :
  k ∈ (g_node (schema_graph si).1).*1
  ↔ k ∈ tables si ∨ ∃ fk, fk ∈ foreign_keys si ∧ k ∈ fk_endpoints fk.
Proof.
  split.
  - intros [Hk|?]%add_fk_keys_origin; [|by right].
    left. by eapply tables_graph_keys_elem_of.
  - intros [Ht|(fk & Hfk & Hk)].
    + pose proof (tables_graph_size si (tables si) k Ht) as Hget.
      apply dict_get_Some in Hget.
      apply list_elem_of_fmap. eexists. split; [|
        by apply add_fk_nodes_preserved, Hget]. done.
    + by eapply add_fk_endpoints.
Qed.

Section figure_properties.
Context `{LayoutBackend}.

(** X12: a listed table without a [columns] entry makes [generate_erd_networkx]
    raise [KeyError] for the first such table, before any figure is created:
    the interpreter state is as it was. *)
Theorem networkx_missing_columns_key_error si pre t post s :
  tables si = pre ++ t :: post →
  Forall (λ t', is_Some (columns si !! t')) pre →
  columns si !! t = None →
  generate_erd_networkx si s = (s, inl (KeyError t)).
Proof.
  intros Htables Hpre Hnone. unfold generate_erd_networkx. run_step.
  rewrite Htables, for_each_app, networkx_table_loop by done.
  simpl. run_step. unfold networkx_add_table at 1, lift, getitem. run_step.
  by rewrite Hnone.
Qed.

(** X13: a call that returns takes one figure number from pyplot, gives it to
    the figure, and leaves numpy's global generator alone. *)
Theorem networkx_figure_number si s s' fig :
  generate_erd_networkx si s = (s', inr fig) →
  np_random s' = np_random s
  ∧ plt_fignum s' = S (plt_fignum s)
  ∧ fig_number fig = S (plt_fignum s).
Proof.
  destruct (decide (columns_cover si)) as [Hcover|Hno].
  - rewrite generate_erd_networkx_returns by done. by intros [= <- <-].
  - destruct (generate_erd_networkx_raises si Hno) as [e He].
    rewrite He. discriminate.
Qed.

(** X14: the nodes of the figure are the listed tables and the endpoints of the
    foreign keys, each once, however often a name is listed or referenced. *)
Theorem networkx_figure_nodes si s s' fig :
  generate_erd_networkx si s = (s', inr fig) →
  NoDup (marker_names fig)
  ∧ ∀ n, n ∈ marker_names fig
         ↔ n ∈ tables si
           ∨ ∃ fk, fk ∈ foreign_keys si
                   ∧ (n = from_table fk ∨ n = to_table fk).
Proof.
  destruct (decide (columns_cover si)) as [Hcover|Hno].
  - rewrite generate_erd_networkx_returns by done. intros [= _ <-].
    unfold marker_names, drawn_figure. simpl. rewrite <-list_fmap_compose.
    change ((λ mk : string * Coord * Z, mk.1.1)
            ∘ (λ nd : string * option Z,
                 (nd.1,
                  (fruchterman_reingold (schema_graph si).1 3 50
                     (RandomState_seed 42)).1 nd.1,
                  default 2000 nd.2)))
      with (@fst string (option Z)).
    split; [apply schema_graph_NoDup|]. intros n.
    rewrite schema_graph_keys. unfold fk_endpoints.
    split; (intros [?|(fk & ? & Hn)]; [by left|right; exists fk; split; [done|]]).
    + apply elem_of_cons in Hn as [?|?%list_elem_of_singleton]; auto.
    + destruct Hn as [-> | ->]; [left|right; left].
  - destruct (generate_erd_networkx_raises si Hno) as [e He].
    rewrite He. discriminate.
Qed.

(** X15: between two tables the figure has at most one arrow: the arrows are the
    distinct pairs (owning table, referenced table) of the foreign keys, so
    parallel foreign keys collapse into one arrow. *)
Theorem networkx_figure_arrows si s s' fig :
  generate_erd_networkx si s = (s', inr fig) →
  NoDup (arrow_pairs fig)
  ∧ ∀ u v, (u, v) ∈ arrow_pairs fig
           ↔ ∃ fk, fk ∈ foreign_keys si
                   ∧ u = from_table fk ∧ v = to_table fk.
Proof.
  destruct (decide (columns_cover si)) as [Hcover|Hno].
  - rewrite generate_erd_networkx_returns by done. intros [= _ <-].
    unfold arrow_pairs, drawn_figure. simpl. rewrite <-list_fmap_compose.
    assert (Hid : ∀ l : list (string * string),
              (λ a : string * string * Coord * Coord, (a.1.1.1, a.1.1.2))
              ∘ (λ e : string * string,
                   (e.1, e.2,
                    (fruchterman_reingold (schema_graph si).1 3 50
                       (RandomState_seed 42)).1 e.1,
                    (fruchterman_reingold (schema_graph si).1 3 50
                       (RandomState_seed 42)).1 e.2)) <$> l = l).
    { intros l. induction l as [|[a b] l IH]; [done|]. csimpl. by rewrite IH. }
    rewrite Hid.
    destruct (add_fk_edges (foreign_keys si)
                (tables_graph si (tables si) DiGraph_new) [])
      as [Hnd Hiff].
    { rewrite tables_graph_edges. constructor. }
    split; [by apply graph_edges_NoDup; [apply schema_graph_NoDup|]|].
    intros u v. rewrite elem_of_graph_edges.
    unfold schema_graph at 1. rewrite Hiff, tables_graph_edges. simpl.
    rewrite elem_of_nil. unfold fk_pair. split.
    + intros [[[]|(fk & ? & [= -> ->])] _]. by exists fk.
    + intros (fk & Hfk & -> & ->). split; [right; by exists fk|].
      apply schema_graph_keys. right. exists fk. split; [done|].
      unfold fk_endpoints. left.
  - destruct (generate_erd_networkx_raises si Hno) as [e He].
    rewrite He. discriminate.
Qed.
End figure_properties.

Lemma schema_graph_label_get si pre fk post :
  foreign_keys si = pre ++ fk :: post →
  Forall (λ fk', fk_pair fk' ≠ fk_pair fk) post →
  dict_get (fk_pair fk) (schema_graph si).2 = Some (fk_label fk).
Proof.
  intros Hfks Hpost. unfold schema_graph. rewrite Hfks, foldl_app.
  destruct (foldl networkx_add_fk
              (tables_graph si (tables si) DiGraph_new, []) pre)
    as [G1 labels1].
  etransitivity;
    [exact (add_fk_labels_untouched post
              (add_edge (from_table fk) (to_table fk) G1)
              (dict_setitem (fk_pair fk) (fk_label fk) labels1) _ Hpost)|].
  rewrite dict_get_setitem. by rewrite decide_True.
Qed.

Lemma schema_graph_labels_NoDup si : NoDup (schema_graph si).2.*1.
Proof. apply add_fk_labels_NoDup. constructor. Qed.

Section figure_labels.
Context `{LayoutBackend}.

(** X16: of the foreign keys between the same two tables only the last one of
    the list is labelled: the pair has one edge label, and it reads
    "from_column → to_column" of that last foreign key. *)
Theorem networkx_edge_label_last_wins si s s' fig pre fk post :
  generate_erd_networkx si s = (s', inr fig) →
  foreign_keys si = pre ++ fk :: post →
  Forall (λ fk', fk_pair fk' ≠ fk_pair fk) post →
  (∃ pu pv, (from_table fk, to_table fk,
             from_column fk +:+ " → " +:+ to_column fk, pu, pv)
            ∈ fig_edge_labels fig)
  ∧ ∀ label pu pv,
      (from_table fk, to_table fk, label, pu, pv) ∈ fig_edge_labels fig →
      label = from_column fk +:+ " → " +:+ to_column fk.
Proof.
  destruct (decide (columns_cover si)) as [Hcover|Hno].
  - rewrite generate_erd_networkx_returns by done.
    intros [= _ <-] Hfks Hpost.
    pose proof (schema_graph_label_get si pre fk post Hfks Hpost) as Hget.
    apply dict_get_Some in Hget. unfold drawn_figure. simpl. split.
    + eexists _, _. apply list_elem_of_fmap. eexists. split; [|exact Hget].
      done.
    + intros label pu pv ([[u v] l] & [= <- <- -> _ _] & Hel)%list_elem_of_fmap.
      exact (NoDup_keys_agree _ _ _ _ (schema_graph_labels_NoDup si) Hel Hget).
  - destruct (generate_erd_networkx_raises si Hno) as [e He].
    rewrite He. discriminate.
Qed.

(** X17: node labels and arrows sit on the nodes: each node's name is written at
    the coordinates of its marker, and each arrow starts and ends at the
    coordinates of the markers of the two tables it joins. *)
Theorem networkx_artists_on_nodes si s s' fig :
  generate_erd_networkx si s = (s', inr fig) →
  fig_node_labels fig = node_coordinates fig
  ∧ ∀ u v pu pv, (u, v, pu, pv) ∈ fig_arrows fig →
      (u, pu) ∈ node_coordinates fig ∧ (v, pv) ∈ node_coordinates fig.
Proof.
  destruct (decide (columns_cover si)) as [Hcover|Hno].
  - rewrite generate_erd_networkx_returns by done. intros [= _ <-].
    unfold node_coordinates, drawn_figure. simpl.
    rewrite <-list_fmap_compose. split; [done|].
    intros u v pu pv ([a b] & [= -> -> -> ->] & He)%list_elem_of_fmap.
    apply elem_of_graph_edges in He as [He _].
    destruct (schema_graph_closed si) as [Hedges _].
    destruct (proj1 (Forall_forall _ _) Hedges _ He) as [Ha Hb]. simpl in *.
    apply list_elem_of_fmap in Ha as (na & -> & Hna).
    apply list_elem_of_fmap in Hb as (nb & -> & Hnb).
    split; apply list_elem_of_fmap; [by exists na|by exists nb].
  - destruct (generate_erd_networkx_raises si Hno) as [e He].
    rewrite He. discriminate.
Qed.
End figure_labels.

Lemma networkx_missing_columns_key_error_witness :
  tables uncovered_schema_info
  = ["public.customers"] ++ "public.ghost" :: ["public.notes"]
  ∧ Forall (λ t', is_Some (columns uncovered_schema_info !! t'))
           ["public.customers"]
  ∧ columns uncovered_schema_info !! "public.ghost" = None
  ∧ @generate_erd_networkx toy_backend uncovered_schema_info toy_state
    = (toy_state, inl (KeyError "public.ghost")).
Proof.
  assert (H1 : tables uncovered_schema_info
               = ["public.customers"] ++ "public.ghost" :: ["public.notes"])
    by reflexivity.
  assert (H2 : Forall (λ t', is_Some (columns uncovered_schema_info !! t'))
                      ["public.customers"])
    by (apply (bool_decide_unpack _); vm_compute; exact I).
  assert (H3 : columns uncovered_schema_info !! "public.ghost" = None)
    by (vm_compute; reflexivity).
  split; [exact H1|]. split; [exact H2|]. split; [exact H3|].
  exact (@networkx_missing_columns_key_error toy_backend uncovered_schema_info
           _ _ _ toy_state H1 H2 H3).
Defined.

Lemma networkx_figure_number_witness :
  @generate_erd_networkx toy_backend parallel_schema_info toy_state
  = (toy_state1, inr (@drawn_figure toy_backend parallel_schema_info 1))
  ∧ np_random toy_state1 = np_random toy_state
  ∧ plt_fignum toy_state1 = S (plt_fignum toy_state)
  ∧ fig_number (@drawn_figure toy_backend parallel_schema_info 1)
    = S (plt_fignum toy_state).
Proof.
  assert (Hrun : @generate_erd_networkx toy_backend parallel_schema_info
                   toy_state
                 = (toy_state1,
                    inr (@drawn_figure toy_backend parallel_schema_info 1)))
    by (vm_compute; reflexivity).
  split; [exact Hrun|].
  exact (@networkx_figure_number toy_backend parallel_schema_info
           _ _ _ Hrun).
Defined.

Lemma networkx_figure_nodes_witness :
  @generate_erd_networkx toy_backend dangling_schema_info toy_state
  = (toy_state1, inr (@drawn_figure toy_backend dangling_schema_info 1))
  ∧ NoDup (marker_names (@drawn_figure toy_backend dangling_schema_info 1))
  ∧ ∀ n, n ∈ marker_names (@drawn_figure toy_backend dangling_schema_info 1)
         ↔ n ∈ tables dangling_schema_info
           ∨ ∃ fk, fk ∈ foreign_keys dangling_schema_info
                   ∧ (n = from_table fk ∨ n = to_table fk).
Proof.
  assert (Hrun : @generate_erd_networkx toy_backend dangling_schema_info
                   toy_state
                 = (toy_state1,
                    inr (@drawn_figure toy_backend dangling_schema_info 1)))
    by (vm_compute; reflexivity).
  split; [exact Hrun|].
  exact (@networkx_figure_nodes toy_backend dangling_schema_info _ _ _ Hrun).
Defined.

Lemma networkx_figure_arrows_witness :
  @generate_erd_networkx toy_backend parallel_schema_info toy_state
  = (toy_state1, inr (@drawn_figure toy_backend parallel_schema_info 1))
  ∧ NoDup (arrow_pairs (@drawn_figure toy_backend parallel_schema_info 1))
  ∧ ∀ u v, (u, v)
           ∈ arrow_pairs (@drawn_figure toy_backend parallel_schema_info 1)
           ↔ ∃ fk, fk ∈ foreign_keys parallel_schema_info
                   ∧ u = from_table fk ∧ v = to_table fk.
Proof.
  assert (Hrun : @generate_erd_networkx toy_backend parallel_schema_info
                   toy_state
                 = (toy_state1,
                    inr (@drawn_figure toy_backend parallel_schema_info 1)))
    by (vm_compute; reflexivity).
  split; [exact Hrun|].
  exact (@networkx_figure_arrows toy_backend parallel_schema_info _ _ _ Hrun).
Defined.

(** On the sample with two foreign keys from flights to airports: one arrow,
    labelled by the second. *)
Example parallel_foreign_keys_one_arrow :
  arrow_pairs (@drawn_figure toy_backend parallel_schema_info 1)
  = [("public.flights", "public.airports")]
  ∧ (λ el, el.1.1.2) <$> fig_edge_labels
                           (@drawn_figure toy_backend parallel_schema_info 1)
    = ["arrival → code"].
Proof. vm_compute. done. Qed.

Lemma networkx_edge_label_last_wins_witness :
  @generate_erd_networkx toy_backend parallel_schema_info toy_state
  = (toy_state1, inr (@drawn_figure toy_backend parallel_schema_info 1))
  ∧ foreign_keys parallel_schema_info
    = [ {| from_table := "public.flights"; from_column := "departure";
           to_table := "public.airports"; to_column := "code" |} ]
      ++ {| from_table := "public.flights"; from_column := "arrival";
            to_table := "public.airports"; to_column := "code" |} :: []
  ∧ (∃ pu pv, ("public.flights", "public.airports", "arrival → code", pu, pv)
              ∈ fig_edge_labels
                  (@drawn_figure toy_backend parallel_schema_info 1))
  ∧ ∀ label pu pv,
      ("public.flights", "public.airports", label, pu, pv)
      ∈ fig_edge_labels (@drawn_figure toy_backend parallel_schema_info 1) →
      label = "arrival → code".
Proof.
  assert (Hrun : @generate_erd_networkx toy_backend parallel_schema_info
                   toy_state
                 = (toy_state1,
                    inr (@drawn_figure toy_backend parallel_schema_info 1)))
    by (vm_compute; reflexivity).
  assert (Hfks : foreign_keys parallel_schema_info
    = [ {| from_table := "public.flights"; from_column := "departure";
           to_table := "public.airports"; to_column := "code" |} ]
      ++ {| from_table := "public.flights"; from_column := "arrival";
            to_table := "public.airports"; to_column := "code" |} :: [])
    by reflexivity.
  split; [exact Hrun|]. split; [exact Hfks|].
  exact (@networkx_edge_label_last_wins toy_backend parallel_schema_info
           _ _ _ _ _ _ Hrun Hfks (Forall_nil_2 _)).
Defined.

Lemma networkx_artists_on_nodes_witness :
  @generate_erd_networkx toy_backend demo_schema_info toy_state
  = (toy_state1, inr (@drawn_figure toy_backend demo_schema_info 1))
  ∧ fig_node_labels (@drawn_figure toy_backend demo_schema_info 1)
    = node_coordinates (@drawn_figure toy_backend demo_schema_info 1)
  ∧ ∀ u v pu pv,
      (u, v, pu, pv) ∈ fig_arrows (@drawn_figure toy_backend demo_schema_info 1) →
      (u, pu) ∈ node_coordinates (@drawn_figure toy_backend demo_schema_info 1)
      ∧ (v, pv)
        ∈ node_coordinates (@drawn_figure toy_backend demo_schema_info 1).
Proof.
  assert (Hrun : @generate_erd_networkx toy_backend demo_schema_info toy_state
                 = (toy_state1,
                    inr (@drawn_figure toy_backend demo_schema_info 1)))
    by (vm_compute; reflexivity).
  split; [exact Hrun|].
  exact (@networkx_artists_on_nodes toy_backend demo_schema_info _ _ _ Hrun).
Defined.

(** ** The analysis tab *)

Lemma sum_list_ones {A} (l : list A) :
  sum_list ((λ _, 1%nat) <$> l) = length l.
Proof. induction l as [|x l IH]; [done|]. csimpl. by rewrite IH. Qed.

Lemma stats_loop si l stats :
  Forall (λ t, is_Some (columns si !! t)) l →
  for_each l (stats_append si) stats tt
  = (tt, inr (stats ++ (stats_row si <$> l))).
Proof.
  intros Hl. revert stats. induction Hl as [|t l [cols Ht] _ IH]; intros stats.
  - simpl. by rewrite app_nil_r.
  - simpl. run_step. unfold stats_append at 1, lift, getitem. run_step.
    rewrite Ht. simpl. rewrite IH, sum_list_ones.
    unfold stats_row at 2. rewrite Ht. simpl.
    by rewrite <-(assoc_L (++)).
Qed.

Lemma count_one_owner (l : list string) (x : string) :
  NoDup l → x ∈ l →
  sum_list ((λ t, if decide (x = t) then 1%nat else 0%nat) <$> l) = 1%nat.
Proof.
  induction 1 as [|t l Ht _ IH]; [by intros ?%elem_of_nil|].
  intros Hx. csimpl. destruct (decide (x = t)) as [->|Hne].
  - assert (Hzero : sum_list ((λ t', if decide (t = t') then 1%nat else 0%nat)
                              <$> l) = 0%nat).
    { clear IH Hx. induction l as [|t' l IHl]; [done|].
      apply not_elem_of_cons in Ht as [Hne Ht]. csimpl.
      rewrite decide_False by done. by apply IHl. }
    by rewrite Hzero.
  - apply elem_of_cons in Hx as [?|Hx]; [done|]. by rewrite IH.
Qed.

Lemma owned_counts_sum (l : list string) (fks : list ForeignKey) :
  NoDup l → Forall (λ fk, from_table fk ∈ l) fks →
  sum_list ((λ t, length (filter (λ fk, from_table fk = t) fks)) <$> l)
  = length fks.
Proof.
  intros Hl Hfks. induction Hfks as [|fk fks Hfk _ IH].
  - induction l as [|t l IHl]; [done|]. csimpl. apply IHl.
    by apply NoDup_cons in Hl as [_ ?].
  - transitivity
      (sum_list ((λ t, if decide (from_table fk = t) then 1%nat else 0%nat)
                 <$> l)
       + sum_list ((λ t, length (filter (λ fk', from_table fk' = t) fks))
                   <$> l))%nat.
    + clear. induction l as [|t l IHl]; [done|]. csimpl.
      rewrite filter_cons, IHl.
      destruct (decide (from_table fk = t)); simpl; lia.
    + by rewrite IH, count_one_owner.
Qed.

(** X18: the statistics of a model whose listed tables all have columns: one row
    per listed table, in list order, with the number of its columns, of its
    primary-key names, of the foreign keys it owns and of its indexes; a
    table that [primary_keys] or [indexes] does not know counts 0 there. *)
Theorem analysis_stats_rows si :
  columns_cover si →
  analysis_stats si = inr (stats_row si <$> tables si).
Proof.
  intros Hcover. unfold analysis_stats. by rewrite stats_loop.
Qed.

Lemma analysis_stats_rows_witness :
  columns_cover demo_schema_info
  ∧ analysis_stats demo_schema_info
    = inr (stats_row demo_schema_info <$> tables demo_schema_info).
Proof.
  assert (Hcover : columns_cover demo_schema_info)
    by (apply (bool_decide_unpack _); vm_compute; exact I).
  split; [exact Hcover|].
  exact (analysis_stats_rows demo_schema_info Hcover).
Defined.

(** X20: when the listed names are pairwise distinct and every foreign key is
    owned by a listed table, the FK column of the statistics adds up to the
    "total relations" metric, [len(foreign_keys)]: each foreign key is
    counted once. *)
Theorem analysis_stats_fk_total si :
  columns_cover si →
  NoDup (tables si) →
  Forall (λ fk, from_table fk ∈ tables si) (foreign_keys si) →
  ∃ stats, analysis_stats si = inr stats
           ∧ sum_list (stat_fk <$> stats) = length (foreign_keys si).
Proof.
  intros Hcover Hnodup Howned. eexists.
  split; [unfold analysis_stats; by rewrite stats_loop|]. simpl.
  rewrite <-list_fmap_compose. by apply owned_counts_sum.
Qed.

Lemma analysis_stats_fk_total_witness :
  columns_cover parallel_schema_info
  ∧ NoDup (tables parallel_schema_info)
  ∧ Forall (λ fk, from_table fk ∈ tables parallel_schema_info)
           (foreign_keys parallel_schema_info)
  ∧ ∃ stats, analysis_stats parallel_schema_info = inr stats
             ∧ sum_list (stat_fk <$> stats)
               = length (foreign_keys parallel_schema_info).
Proof.
  assert (Hcover : columns_cover parallel_schema_info)
    by (apply (bool_decide_unpack _); vm_compute; exact I).
  assert (Hnodup : NoDup (tables parallel_schema_info))
    by (apply (bool_decide_unpack _); vm_compute; exact I).
  assert (Howned : Forall (λ fk, from_table fk ∈ tables parallel_schema_info)
                          (foreign_keys parallel_schema_info))
    by (apply (bool_decide_unpack _); vm_compute; exact I).
  split; [exact Hcover|]. split; [exact Hnodup|]. split; [exact Howned|].
  exact (analysis_stats_fk_total parallel_schema_info Hcover Hnodup Howned).
Defined.

(** A table listed twice counts its foreign keys twice, so without the
    distinctness the column can exceed the metric. *)
Example analysis_stats_fk_double_count :
  match analysis_stats
          {| tables := ["public.flights"; "public.flights"];
             columns := columns parallel_schema_info;
             primary_keys := ∅;
             foreign_keys := foreign_keys parallel_schema_info;
             indexes := ∅ |} with
  | inr stats => sum_list (stat_fk <$> stats) = 4%nat
  | inl _ => False
  end.
Proof. vm_compute. reflexivity. Qed.

(** ** From the database to the page *)

(** X21: whatever model the extraction returns, the two renderers and the
    statistics accept it: none of them raises on a loaded schema. *)
Theorem extracted_model_renders p w w' m :
  get_postgres_schema_with_relations p w = (w', inr m) →
  (∃ dot, generate_erd_graphviz m = inr dot)
  ∧ (∀ `{LayoutBackend} s, ∃ s' fig, generate_erd_networkx m s = (s', inr fig))
  ∧ ∃ stats, analysis_stats m = inr stats.
Proof.
  intros (_ & _ & ->)%extraction_inr.
  pose proof (extracted_columns_cover (srv_catalog (server w))
                (select_tables (srv_catalog (server w)))) as Hcover.
  split; [|split].
  - eexists. by apply generate_erd_graphviz_returns.
  - intros B s. eexists _, _. by apply generate_erd_networkx_returns.
  - eexists. unfold analysis_stats. by rewrite stats_loop.
Qed.

Lemma extracted_model_renders_witness :
  get_postgres_schema_with_relations demo_params demo_world
  = ({| server := demo_server; connections := [false] |}, inr demo_schema_info)
  ∧ (∃ dot, generate_erd_graphviz demo_schema_info = inr dot)
  ∧ (∀ `{LayoutBackend} s,
       ∃ s' fig, generate_erd_networkx demo_schema_info s = (s', inr fig))
  ∧ ∃ stats, analysis_stats demo_schema_info = inr stats.
Proof.
  assert (Hrun : get_postgres_schema_with_relations demo_params demo_world
                 = ({| server := demo_server; connections := [false] |},
                    inr demo_schema_info))
    by (vm_compute; reflexivity).
  split; [exact Hrun|].
  exact (extracted_model_renders demo_params demo_world _ demo_schema_info
           Hrun).
Defined.

(** ** The primary-key query, read closely *)

(** The names the primary-key query yields: the usage row is matched by
    constraint name alone; its own schema and table are not compared. *)
Lemma elem_of_select_primary_keys cat schema table name :
  name ∈ select_primary_keys cat schema table
  ↔ ∃ tc ccu c,
      tc ∈ information_schema_table_constraints cat
      ∧ ccu ∈ information_schema_constraint_column_usage cat
      ∧ c ∈ information_schema_columns cat
      ∧ tc_constraint_type tc = "PRIMARY KEY"
      ∧ tc_table_schema tc = schema ∧ tc_table_name tc = table
      ∧ ccu_constraint_name ccu = tc_constraint_name tc
      ∧ c_table_schema c = schema ∧ c_table_name c = table
      ∧ c_column_name c = ccu_column_name ccu
      ∧ name = c_column_name c.
Proof.
  unfold select_primary_keys. rewrite list_elem_of_fmap. split.
  - intros ([[tc ccu] c] & -> & Hj).
    apply list_elem_of_filter in Hj as [(Htype & Hs & Ht) Hj].
    apply elem_of_inner_join in Hj as [(Hcs & Hct & Hcn) [Hj Hc]].
    apply elem_of_inner_join in Hj as [Hname [Htc Hccu]].
    simpl in *. exists tc, ccu, c. repeat split; try done; congruence.
  - intros (tc & ccu & c & Htc & Hccu & Hc & Htype & Hs & Ht & Hname
            & Hcs & Hct & Hcn & ->).
    exists (tc, ccu, c). split; [done|].
    apply list_elem_of_filter. split; [done|].
    apply elem_of_inner_join. simpl. split; [repeat split; congruence|].
    split; [|done]. apply elem_of_inner_join. simpl. done.
Qed.

(** Two schemas with a table [t] each, whose primary keys carry the same
    default name: the column [code] of [a.t], no key there, is reported as
    one, because [b.t]'s key column has that name. *)
Example primary_key_of_a_namesake :
  select_primary_keys
    {| information_schema_tables := [];
       information_schema_columns :=
         [ {| c_table_schema := "a"; c_table_name := "t";
              c_column_name := "id"; c_data_type := "integer";
              c_is_nullable := "NO"; c_ordinal_position := 1 |};
           {| c_table_schema := "a"; c_table_name := "t";
              c_column_name := "code"; c_data_type := "text";
              c_is_nullable := "YES"; c_ordinal_position := 2 |};
           {| c_table_schema := "b"; c_table_name := "t";
              c_column_name := "code"; c_data_type := "text";
              c_is_nullable := "NO"; c_ordinal_position := 1 |} ];
       information_schema_table_constraints :=
         [ {| tc_constraint_name := "t_pkey"; tc_table_schema := "a";
              tc_table_name := "t"; tc_constraint_type := "PRIMARY KEY" |};
           {| tc_constraint_name := "t_pkey"; tc_table_schema := "b";
              tc_table_name := "t"; tc_constraint_type := "PRIMARY KEY" |} ];
       information_schema_constraint_column_usage :=
         [ {| ccu_table_schema := "a"; ccu_table_name := "t";
              ccu_column_name := "id"; ccu_constraint_name := "t_pkey" |};
           {| ccu_table_schema := "b"; ccu_table_name := "t";
              ccu_column_name := "code"; ccu_constraint_name := "t_pkey" |} ];
       information_schema_key_column_usage := [];
       pg_indexes := [] |} "a" "t"
  = ["id"; "code"].
Proof. vm_compute. reflexivity. Qed.

Lemma select_primary_keys_none cat schema table :
  Forall (λ tc, ¬ (tc_constraint_type tc = "PRIMARY KEY"
                   ∧ tc_table_schema tc = schema
                   ∧ tc_table_name tc = table))
         (information_schema_table_constraints cat) →
  select_primary_keys cat schema table = [].
Proof.
  intros Hnone. apply elem_of_nil_inv. intros name.
  rewrite elem_of_select_primary_keys.
  intros (tc & _ & _ & Htc & _ & _ & Htype & Hs & Ht & _).
  by apply (proj1 (Forall_forall _ _) Hnone tc Htc).
Qed.

(** X23: a listed table without PRIMARY KEY constraint (the listed names being
    pairwise distinct) has the empty list under [primary_keys], and the
    tables tab writes the empty text for it. *)
Theorem extracted_table_without_primary_key p w w' m schema table :
  get_postgres_schema_with_relations p w = (w', inr m) →
  NoDup (tables m) →
  (schema, table) ∈ select_tables (srv_catalog (server w)) →
  Forall (λ tc, ¬ (tc_constraint_type tc = "PRIMARY KEY"
                   ∧ tc_table_schema tc = schema
                   ∧ tc_table_name tc = table))
         (information_schema_table_constraints (srv_catalog (server w))) →
  primary_keys m !! (schema +:+ "." +:+ table) = Some []
  ∧ primary_keys_text m (schema +:+ "." +:+ table) = "".
Proof.
  intros (_ & _ & ->)%extraction_inr. rewrite extracted_tables.
  intros Hnodup Hrow Hnone.
  destruct (extracted_lookup (srv_catalog (server w)) _ (schema, table)
              Hnodup Hrow) as (_ & Hpk & _).
  unfold full_name in Hpk. simpl in Hpk.
  rewrite (select_primary_keys_none _ _ _ Hnone) in Hpk.
  split; [done|]. unfold primary_keys_text. by rewrite Hpk.
Qed.

Lemma extracted_table_without_primary_key_witness :
  get_postgres_schema_with_relations demo_params composite_world
  = ({| server := server composite_world; connections := [false] |},
     inr composite_schema_info)
  ∧ NoDup (tables composite_schema_info)
  ∧ ("public", "shipments")
    ∈ select_tables (srv_catalog (server composite_world))
  ∧ Forall (λ tc, ¬ (tc_constraint_type tc = "PRIMARY KEY"
                     ∧ tc_table_schema tc = "public"
                     ∧ tc_table_name tc = "shipments"))
           (information_schema_table_constraints
              (srv_catalog (server composite_world)))
  ∧ primary_keys composite_schema_info !! ("public" +:+ "." +:+ "shipments")
    = Some []
  ∧ primary_keys_text composite_schema_info
      ("public" +:+ "." +:+ "shipments") = "".
Proof.
  assert (Hrun : get_postgres_schema_with_relations demo_params composite_world
                 = ({| server := server composite_world;
                       connections := [false] |},
                    inr composite_schema_info))
    by (vm_compute; reflexivity).
  assert (Hnodup : NoDup (tables composite_schema_info))
    by (apply (bool_decide_unpack _); vm_compute; exact I).
  assert (Hrow : ("public", "shipments")
                 ∈ select_tables (srv_catalog (server composite_world)))
    by (vm_compute; right; left).
  assert (Hnone : Forall (λ tc, ¬ (tc_constraint_type tc = "PRIMARY KEY"
                                   ∧ tc_table_schema tc = "public"
                                   ∧ tc_table_name tc = "shipments"))
                    (information_schema_table_constraints
                       (srv_catalog (server composite_world))))
    by (apply (bool_decide_unpack _); vm_compute; exact I).
  split; [exact Hrun|]. split; [exact Hnodup|]. split; [exact Hrow|].
  split; [exact Hnone|].
  exact (extracted_table_without_primary_key demo_params composite_world _
           composite_schema_info "public" "shipments" Hrun Hnodup Hrow Hnone).
Defined.
